(** * Sports EV calculator: odds conversion, EV, Kelly sizing, arbitrage

    A shallow embedding of the math utilities ("Sports EV Calculator - Math
    Utilities", imported by the components as [utils/calculations]) found in
    [frontend/src/utils/mockData.ts], of the validators of
    [frontend/src/utils/validation.ts], of [ProtectedRoute] and of the
    Dashboard's league filter, followed by the properties the specification
    states about them.

    Numbers.  The math utilities are embedded twice.

    - Over the type [number] below: an exact rational (every finite double
      is one), or one of the three special values [+Infinity], [-Infinity]
      and [NaN].  The operations follow ECMAScript on the special values
      (division by zero, comparisons with [NaN], ...) and are exact on
      finite values; every zero is read as [+0].  Over it are stated the
      properties that rest on the branches, the comparisons and the
      expressions of the code: the behaviour at zero odds, the round trip
      of integer quotes, the arbitrage test, [completeAnalysis] and the
      validators.

    - Over IEEE-754 binary64 (module [B64], Rocq's primitive floats): the
      arithmetic a JavaScript engine runs, with rounding to nearest,
      overflow, underflow and signed zeros.  Over it are stated the
      properties whose truth depends on rounding: the bounds of the implied
      probability, the sign of the expected value, the Kelly fraction, the
      hedge scenarios and their rounding. *)

From Stdlib Require Import ZArith QArith Qround Qabs Lqa Lia List String Bool.
From Stdlib Require Import Ascii NArith.
From Stdlib Require Floats Uint63.
Import ListNotations.

(** A decimal literal of the double-precision part denotes, as in
    JavaScript, the double nearest to it. *)
Set Warnings "-inexact-float".

Local Open Scope Q_scope.

(* ------------------------------------------------------------------ *)
(** ** JavaScript numbers                                              *)
(* ------------------------------------------------------------------ *)

Inductive number : Type :=
| Fin (q : Q)
| PInf
| NInf
| NaN.

Arguments Fin q%_Q.

(** Strict order on rationals as a boolean. *)
Definition Qlt_bool (x y : Q) : bool := negb (Qle_bool y x).

(** Unary minus. *)
Definition js_neg (a : number) : number :=
  match a with
  | Fin x => Fin (- x)
  | PInf => NInf
  | NInf => PInf
  | NaN => NaN
  end.

(** [a + b] *)
Definition js_add (a b : number) : number :=
  match a, b with
  | NaN, _ | _, NaN => NaN
  | Fin x, Fin y => Fin (x + y)
  | PInf, NInf | NInf, PInf => NaN
  | PInf, _ | _, PInf => PInf
  | NInf, _ | _, NInf => NInf
  end.

(** [a - b] *)
Definition js_sub (a b : number) : number := js_add a (js_neg b).

(** [+Infinity] or [-Infinity]. *)
Definition signed_inf (positive : bool) : number :=
  if positive then PInf else NInf.

(** [a * b] *)
Definition js_mul (a b : number) : number :=
  match a, b with
  | NaN, _ | _, NaN => NaN
  | Fin x, Fin y => Fin (x * y)
  | Fin x, PInf | PInf, Fin x =>
      if Qeq_bool x 0 then NaN else signed_inf (Qlt_bool 0 x)
  | Fin x, NInf | NInf, Fin x =>
      if Qeq_bool x 0 then NaN else signed_inf (Qlt_bool x 0)
  | PInf, PInf | NInf, NInf => PInf
  | PInf, NInf | NInf, PInf => NInf
  end.

(** [a / b]: a finite value over zero is an infinity (or [NaN] for [0/0]),
    a finite value over an infinity is zero. *)
Definition js_div (a b : number) : number :=
  match a, b with
  | NaN, _ | _, NaN => NaN
  | Fin x, Fin y =>
      if Qeq_bool y 0
      then (if Qeq_bool x 0 then NaN else signed_inf (Qlt_bool 0 x))
      else Fin (x / y)
  | Fin _, (PInf | NInf) => Fin 0
  | PInf, Fin y => signed_inf (negb (Qlt_bool y 0))
  | NInf, Fin y => signed_inf (Qlt_bool y 0)
  | (PInf | NInf), (PInf | NInf) => NaN
  end.

(** [a < b]; every comparison with [NaN] is false. *)
Definition js_lt (a b : number) : bool :=
  match a, b with
  | NaN, _ | _, NaN => false
  | Fin x, Fin y => Qlt_bool x y
  | _, NInf => false
  | NInf, _ => true
  | PInf, _ => false
  | _, PInf => true
  end.

(** [a === b] on numbers. *)
Definition js_eq (a b : number) : bool :=
  match a, b with
  | Fin x, Fin y => Qeq_bool x y
  | PInf, PInf | NInf, NInf => true
  | _, _ => false
  end.

(** [a <= b] *)
Definition js_le (a b : number) : bool := js_lt a b || js_eq a b.

(** [a > b] *)
Definition js_gt (a b : number) : bool := js_lt b a.

(** [a >= b] *)
Definition js_ge (a b : number) : bool := js_le b a.

(** [Math.abs] *)
Definition Math_abs (a : number) : number :=
  match a with
  | Fin x => Fin (Qabs x)
  | PInf | NInf => PInf
  | NaN => NaN
  end.

(** [Math.round]: the nearest integer, ties towards [+Infinity]. *)
Definition Math_round (a : number) : number :=
  match a with
  | Fin x => Fin (inject_Z (Qfloor (x + (1 # 2))))
  | _ => a
  end.

(** [Math.max] of two arguments. *)
Definition Math_max (a b : number) : number :=
  match a, b with
  | NaN, _ | _, NaN => NaN
  | _, _ => if js_lt a b then b else a
  end.

(** [isNaN] on a number. *)
Definition isNaN (a : number) : bool :=
  match a with NaN => true | _ => false end.

(** [Number.isFinite] *)
Definition isFinite (a : number) : bool :=
  match a with Fin _ => true | _ => false end.

(** Numbers denoting the same value: rationals up to [==]. *)
Definition same (a b : number) : Prop :=
  match a, b with
  | Fin x, Fin y => x == y
  | PInf, PInf | NInf, NInf | NaN, NaN => True
  | _, _ => False
  end.

Declare Scope js_scope.
Delimit Scope js_scope with js.
Bind Scope js_scope with number.
Infix "+" := js_add : js_scope.
Infix "-" := js_sub : js_scope.
Infix "*" := js_mul : js_scope.
Infix "/" := js_div : js_scope.
Infix "<" := js_lt : js_scope.
Infix "<=" := js_le : js_scope.
Infix ">" := js_gt : js_scope.
Infix ">=" := js_ge : js_scope.
Infix "===" := js_eq (at level 70, no associativity) : js_scope.
Infix "=n=" := same (at level 70, no associativity).

(* ------------------------------------------------------------------ *)
(** ** 1. Odds conversion functions (mockData.ts)                      *)
(* ------------------------------------------------------------------ *)

(** [americanToDecimal(americanOdds)] *)
Definition americanToDecimal (americanOdds : number) : number :=
  if (americanOdds < Fin 0)%js
  then (Fin 100 / Math_abs americanOdds + Fin 1)%js
  else (americanOdds / Fin 100 + Fin 1)%js.

(** [americanToImpliedProbability(americanOdds)] *)
Definition americanToImpliedProbability (americanOdds : number) : number :=
  if (americanOdds < Fin 0)%js
  then (Math_abs americanOdds / (Math_abs americanOdds + Fin 100))%js
  else (Fin 100 / (americanOdds + Fin 100))%js.

(** [decimalToAmerican(decimalOdds)] *)
Definition decimalToAmerican (decimalOdds : number) : number :=
  if (decimalOdds >= Fin 2)%js
  then Math_round ((decimalOdds - Fin 1) * Fin 100)%js
  else Math_round (Fin (-100) / (decimalOdds - Fin 1))%js.

(* ------------------------------------------------------------------ *)
(** ** 2. Expected value                                               *)
(* ------------------------------------------------------------------ *)

(** [calculateEVPercentage(yourProbability, americanOdds)] *)
Definition calculateEVPercentage (yourProbability americanOdds : number)
  : number :=
  let decimalOdds := americanToDecimal americanOdds in
  let ev :=
    (yourProbability * (decimalOdds - Fin 1) - (Fin 1 - yourProbability))%js in
  ev.

(* ------------------------------------------------------------------ *)
(** ** 3. Kelly criterion                                              *)
(* ------------------------------------------------------------------ *)

(** [calculateKellyCriterion(evPercentage, americanOdds)] *)
Definition calculateKellyCriterion (evPercentage americanOdds : number)
  : number :=
  if (evPercentage <= Fin 0)%js then Fin 0
  else
    let decimalOdds := americanToDecimal americanOdds in
    let kelly := (evPercentage / (decimalOdds - Fin 1))%js in
    Math_max (Fin 0) kelly.

(** The string union ["full" | "half" | "quarter"]. *)
Inductive KellyFraction : Type := full | half | quarter.

(** The object literal [fractionMap] of [calculateBetSize]. *)
Definition fractionMap (k : KellyFraction) : number :=
  match k with
  | full => Fin 1
  | half => Fin 0.5
  | quarter => Fin 0.25
  end.

(** [calculateBetSize(bankroll, kellyPercentage, kellyFraction = "half")];
    [None] is the omitted third argument. *)
Definition calculateBetSize (bankroll kellyPercentage : number)
    (kellyFraction : option KellyFraction) : number :=
  let kellyFraction :=
    match kellyFraction with Some k => k | None => half end in
  let fraction := fractionMap kellyFraction in
  (bankroll * kellyPercentage * fraction)%js.

(* ------------------------------------------------------------------ *)
(** ** 4. Arbitrage detection                                          *)
(* ------------------------------------------------------------------ *)

Record ArbInfo : Type := mkArbInfo {
  hasArbitrage : bool;
  arbPercentage : number
}.

(** [detectArbitrage(oddsA, oddsB)] *)
Definition detectArbitrage (oddsA oddsB : number) : ArbInfo :=
  let probA := americanToImpliedProbability oddsA in
  let probB := americanToImpliedProbability oddsB in
  let probSum := (probA + probB)%js in
  let hasArbitrage := (probSum < Fin 1)%js in
  let arbPercentage :=
    if hasArbitrage then ((Fin 1 / probSum - Fin 1) * Fin 100)%js
    else Fin 0 in
  {| hasArbitrage := hasArbitrage; arbPercentage := arbPercentage |}.

(* ------------------------------------------------------------------ *)
(** ** 6. Full analysis                                                *)
(* ------------------------------------------------------------------ *)

(** The string union ["sharps" | "pm"]. *)
Inductive Side : Type := sharps | pm.

Definition Side_eqb (a b : Side) : bool :=
  match a, b with
  | sharps, sharps | pm, pm => true
  | _, _ => false
  end.

Record AnalysisParams : Type := mkParams {
  sharpsOdds : number;
  pmOdds : number;
  yourProbabilityAgainstFav : number;
  bankroll : number
}.

Record Analysis : Type := mkAnalysis {
  sharpsImpliedProb : number;
  pmImpliedProb : number;
  edgeVsSharps : number;
  edgeVsPM : number;
  recommendedSide : Side;
  evPercentage : number;
  fullKellyPercent : number;
  halfKellyBetSize : number;
  quarterKellyBetSize : number;
  arbInfo : ArbInfo
}.

(** [completeAnalysis(params)] *)
Definition completeAnalysis (params : AnalysisParams) : Analysis :=
  let sharpsImpliedProb := americanToImpliedProbability (sharpsOdds params) in
  let pmImpliedProb := americanToImpliedProbability (pmOdds params) in
  let edgeVsSharps :=
    calculateEVPercentage (yourProbabilityAgainstFav params)
                          (sharpsOdds params) in
  let edgeVsPM :=
    calculateEVPercentage (yourProbabilityAgainstFav params)
                          (pmOdds params) in
  let recommendedSide :=
    if (edgeVsSharps > edgeVsPM)%js then sharps else pm in
  let evPercentage :=
    if Side_eqb recommendedSide sharps then edgeVsSharps else edgeVsPM in
  let recommendedOdds :=
    if Side_eqb recommendedSide sharps then sharpsOdds params
    else pmOdds params in
  let fullKellyPercent :=
    calculateKellyCriterion evPercentage recommendedOdds in
  {| sharpsImpliedProb := sharpsImpliedProb;
     pmImpliedProb := pmImpliedProb;
     edgeVsSharps := edgeVsSharps;
     edgeVsPM := edgeVsPM;
     recommendedSide := recommendedSide;
     evPercentage := evPercentage;
     fullKellyPercent := fullKellyPercent;
     halfKellyBetSize :=
       calculateBetSize (bankroll params) fullKellyPercent (Some half);
     quarterKellyBetSize :=
       calculateBetSize (bankroll params) fullKellyPercent (Some quarter);
     arbInfo := detectArbitrage (sharpsOdds params) (pmOdds params) |}.

(* ------------------------------------------------------------------ *)
(** ** Numeric validators (validation.ts)                              *)
(* ------------------------------------------------------------------ *)

(** A JavaScript value as the validators may receive it at run time: they
    test [typeof x !== 'number'] before anything else. *)
Inductive value : Type :=
| VNumber (n : number)
| VString (s : string)
| VBoolean (b : bool)
| VUndefined
| VNull.

Record ValidationResult : Type := mkValidationResult {
  isValid : bool;
  error : option string
}.

Definition invalid (msg : string) : ValidationResult :=
  {| isValid := false; error := Some msg |}.

Definition valid : ValidationResult :=
  {| isValid := true; error := None |}.

(** [validateBankroll(amount)] *)
Definition validateBankroll (amount : value) : ValidationResult :=
  match amount with
  | VNumber amount =>
      if isNaN amount then invalid "Bankroll must be a valid number"
      else if (amount < Fin 0)%js then invalid "Bankroll cannot be negative"
      else if (amount > Fin 1000000)%js
           then invalid "Bankroll exceeds maximum allowed ($1,000,000)"
      else valid
  | _ => invalid "Bankroll must be a valid number"
  end.

(** [validateOdds(odds)] *)
Definition validateOdds (odds : value) : ValidationResult :=
  match odds with
  | VNumber odds =>
      if isNaN odds then invalid "Odds must be a valid number"
      else if negb ((Fin (-1000) <= odds)%js && (odds <= Fin 10000)%js)
           then invalid "Odds must be between -1000 and 10000"
      else if (odds === Fin 0)%js then invalid "Odds cannot be zero"
      else valid
  | _ => invalid "Odds must be a valid number"
  end.

(* ------------------------------------------------------------------ *)
(** ** The user of the auth context and ProtectedRoute                 *)
(* ------------------------------------------------------------------ *)

(** The interface [User] of [types/index.ts]; the [Date] is held as its
    time value. *)
Record User : Type := mkUser {
  uid : string;
  email : string;
  displayName : string;
  user_bankroll : number;
  approved : bool;
  createdAt : number
}.

(** [ProtectedRoute]: what the component renders. *)
Inductive Rendered : Type :=
| LoadingScreen
| NavigateToLogin
| Children.

(** [ProtectedRoute({children})], from the [currentUser] and [loading] of
    the auth context. *)
Definition ProtectedRoute (currentUser : option User) (loading : bool)
  : Rendered :=
  if loading then LoadingScreen
  else
    match currentUser with
    | None => NavigateToLogin
    | Some u => if negb (approved u) then NavigateToLogin else Children
    end.

(* ------------------------------------------------------------------ *)
(** ** Strings and regular expressions (validation.ts)                 *)
(* ------------------------------------------------------------------ *)

(** A JavaScript string is a sequence of UTF-16 code units.  The model
    holds the strings whose code units are below 256, as a [string] with one
    [ascii] per code unit; [chars] lists the code units. *)
Definition chars (s : string) : list ascii := list_ascii_of_string s.

(** [charCodeAt] of a code unit. *)
Definition charCode (c : ascii) : N := N_of_ascii c.

(** The white space and line terminators of ECMAScript below 256: TAB, LF,
    VT, FF, CR, SP and NBSP.  [trim] and the class [\s] use them. *)
Definition isWhiteSpace (c : ascii) : bool :=
  existsb (N.eqb (charCode c)) [9; 10; 11; 12; 13; 32; 160]%N.

Fixpoint trimStart (l : list ascii) : list ascii :=
  match l with
  | c :: l' => if isWhiteSpace c then trimStart l' else l
  | [] => []
  end.

Definition trimEnd (l : list ascii) : list ascii :=
  rev (trimStart (rev l)).

(** [s.trim()] *)
Definition trim (s : string) : string :=
  string_of_list_ascii (trimEnd (trimStart (chars s))).

(** An item of a character class. *)
Inductive ClassItem : Type :=
| Rng (lo hi : ascii)      (* a range such as a-z *)
| Chr (c : ascii)          (* one character *)
| ClsDigit                 (* \d *)
| ClsWord                  (* \w *)
| ClsSpace.                (* \s *)

Definition inRange (lo hi : N) (c : ascii) : bool :=
  ((lo <=? charCode c) && (charCode c <=? hi))%N.

Definition isDigit (c : ascii) : bool := inRange 48 57 c.
Definition isUpper (c : ascii) : bool := inRange 65 90 c.
Definition isLower (c : ascii) : bool := inRange 97 122 c.

(** [\w] is [A-Za-z0-9_]. *)
Definition isWord (c : ascii) : bool :=
  isUpper c || isLower c || isDigit c || (charCode c =? 95)%N.

Definition item_matches (i : ClassItem) (c : ascii) : bool :=
  match i with
  | Rng lo hi => inRange (charCode lo) (charCode hi) c
  | Chr x => (charCode c =? charCode x)%N
  | ClsDigit => isDigit c
  | ClsWord => isWord c
  | ClsSpace => isWhiteSpace c
  end.

(** A class [[...]], or [[^...]] when [negated]. *)
Definition set_matches (negated : bool) (items : list ClassItem) (c : ascii)
  : bool :=
  xorb negated (existsb (fun i => item_matches i c) items).

(** The regular expressions the validators use. *)
Inductive Regex : Type :=
| RNone                                   (* matches nothing *)
| REps                                    (* the empty string *)
| RSet (negated : bool) (items : list ClassItem)
| RCat (r1 r2 : Regex)
| RAlt (r1 r2 : Regex)
| RStar (r : Regex).

(** [r+] and [r{2,}] *)
Definition RPlus (r : Regex) : Regex := RCat r (RStar r).
Definition RAtLeast2 (r : Regex) : Regex := RCat r (RCat r (RStar r)).

(** Any code unit. *)
Definition RAny : Regex := RSet true [].

(** The strings a regular expression matches. *)
Inductive Matches : Regex -> list ascii -> Prop :=
| MEps : Matches REps []
| MSet negated items c :
    set_matches negated items c = true -> Matches (RSet negated items) [c]
| MCat r1 r2 l1 l2 :
    Matches r1 l1 -> Matches r2 l2 -> Matches (RCat r1 r2) (l1 ++ l2)
| MAltL r1 r2 l : Matches r1 l -> Matches (RAlt r1 r2) l
| MAltR r1 r2 l : Matches r2 l -> Matches (RAlt r1 r2) l
| MStarNil r : Matches (RStar r) []
| MStarApp r l1 l2 :
    Matches r l1 -> Matches (RStar r) l2 -> Matches (RStar r) (l1 ++ l2).

(** Matching by derivatives. *)
Fixpoint nullable (r : Regex) : bool :=
  match r with
  | RNone => false
  | REps => true
  | RSet _ _ => false
  | RCat r1 r2 => nullable r1 && nullable r2
  | RAlt r1 r2 => nullable r1 || nullable r2
  | RStar _ => true
  end.

Fixpoint deriv (c : ascii) (r : Regex) : Regex :=
  match r with
  | RNone => RNone
  | REps => RNone
  | RSet negated items => if set_matches negated items c then REps else RNone
  | RCat r1 r2 =>
      if nullable r1
      then RAlt (RCat (deriv c r1) r2) (deriv c r2)
      else RCat (deriv c r1) r2
  | RAlt r1 r2 => RAlt (deriv c r1) (deriv c r2)
  | RStar r1 => RCat (deriv c r1) (RStar r1)
  end.

Fixpoint matches (r : Regex) (l : list ascii) : bool :=
  match l with
  | [] => nullable r
  | c :: l' => matches (deriv c r) l'
  end.

(** A regular expression literal: its body, and whether it starts with [^]
    and ends with [$] (no flags). *)
Record RegExp : Type := mkRegExp {
  anchoredStart : bool;
  body : Regex;
  anchoredEnd : bool
}.

(** [re.test(s)]: a match anywhere in [s], or at its start or end where the
    literal is anchored. *)
Definition RegExp_test (re : RegExp) (s : string) : bool :=
  let r := body re in
  let r := if anchoredStart re then r else RCat (RStar RAny) r in
  let r := if anchoredEnd re then r else RCat r (RStar RAny) in
  matches r (chars s).

(** [/^[a-zA-Z0-9._%+-]+@[a-zA-Z0-9.-]+\.[a-zA-Z]{2,}$/] *)
Definition emailRegex : RegExp :=
  mkRegExp true
    (RCat (RPlus (RSet false [Rng "a" "z"; Rng "A" "Z"; Rng "0" "9";
                              Chr "."; Chr "_"; Chr "%"; Chr "+"; Chr "-"]))
       (RCat (RSet false [Chr "@"])
          (RCat (RPlus (RSet false [Rng "a" "z"; Rng "A" "Z"; Rng "0" "9";
                                    Chr "."; Chr "-"]))
             (RCat (RSet false [Chr "."])
                (RAtLeast2 (RSet false [Rng "a" "z"; Rng "A" "Z"]))))))
    true.

(** [/^[a-zA-Z0-9\s\-']+$/] *)
Definition nameRegex : RegExp :=
  mkRegExp true
    (RPlus (RSet false [Rng "a" "z"; Rng "A" "Z"; Rng "0" "9"; ClsSpace;
                        Chr "-"; Chr "'"]))
    true.

(** [/[A-Z]/], [/[a-z]/], [/\d/] and [/[^\w\s]/] *)
Definition upperRegex : RegExp := mkRegExp false (RSet false [Rng "A" "Z"]) false.
Definition lowerRegex : RegExp := mkRegExp false (RSet false [Rng "a" "z"]) false.
Definition digitRegex : RegExp := mkRegExp false (RSet false [ClsDigit]) false.
Definition specialRegex : RegExp :=
  mkRegExp false (RSet true [ClsWord; ClsSpace]) false.

(** [validateEmail(email)] *)
Definition validateEmail (email : value) : ValidationResult :=
  match email with
  | VString email =>
      let email := trim email in
      if (email =? "")%string then invalid "Email cannot be empty"
      else if (254 <? String.length email)%nat
           then invalid "Email is too long"
      else if negb (RegExp_test emailRegex email)
           then invalid "Invalid email format"
      else valid
  | _ => invalid "Email must be a string"
  end.

(** [validatePassword(password)] *)
Definition validatePassword (password : value) : ValidationResult :=
  match password with
  | VString password =>
      if (String.length password <? 8)%nat
      then invalid "Password must be at least 8 characters"
      else if (128 <? String.length password)%nat
           then invalid "Password is too long"
      else if negb (RegExp_test upperRegex password)
           then invalid "Password must contain at least one uppercase letter"
      else if negb (RegExp_test lowerRegex password)
           then invalid "Password must contain at least one lowercase letter"
      else if negb (RegExp_test digitRegex password)
           then invalid "Password must contain at least one digit"
      else if negb (RegExp_test specialRegex password)
           then invalid "Password must contain at least one special character"
      else valid
  | _ => invalid "Password must be a string"
  end.

(** [validateDisplayName(name)] *)
Definition validateDisplayName (name : value) : ValidationResult :=
  match name with
  | VString name =>
      let name := trim name in
      if (String.length name <? 2)%nat
      then invalid "Display name must be at least 2 characters"
      else if (100 <? String.length name)%nat
           then invalid "Display name must be 100 characters or less"
      else if negb (RegExp_test nameRegex name)
           then invalid "Display name can only contain letters, numbers, spaces, hyphens, and apostrophes"
      else valid
  | _ => invalid "Display name must be a string"
  end.

(** The end index of [text.substring(0, maxLength)] for a text of [len]
    code units: [maxLength] truncated to an integer ([NaN] counts as 0) and
    clamped to [0, len]. *)
Definition substringEnd (maxLength : number) (len : nat) : nat :=
  match maxLength with
  | Fin q => if Qle_bool q 0 then 0%nat else Nat.min (Z.to_nat (Qfloor q)) len
  | PInf => len
  | NInf | NaN => 0%nat
  end.

(** The loop of [sanitizeString]: the code units from 32 up other than 127,
    in order. *)
Fixpoint removeControl (l : list ascii) : list ascii :=
  match l with
  | [] => []
  | c :: l' =>
      if ((32 <=? charCode c) && negb (charCode c =? 127))%N
      then c :: removeControl l'
      else removeControl l'
  end.

(** [sanitizeString(text, maxLength = 500)]; [None] is the omitted second
    argument. *)
Definition sanitizeString (text : value) (maxLength : option number)
  : string :=
  let maxLength := match maxLength with Some n => n | None => Fin 500 end in
  match text with
  | VString text =>
      let text := chars (trim text) in
      let text := firstn (substringEnd maxLength (List.length text)) text in
      let cleaned := removeControl text in
      string_of_list_ascii cleaned
  | _ => ""%string
  end.

(** The interface [MultiValidationResult].  An entry of [errors] is [None]
    where the source would push [undefined]. *)
Record MultiValidationResult : Type := mkMultiValidationResult {
  allValid : bool;
  errors : list (option string)
}.

(** [validateSignupData(email, password, displayName)] *)
Definition validateSignupData (email password displayName : value)
  : MultiValidationResult :=
  let errors := [] in
  let emailResult := validateEmail email in
  let errors :=
    if negb (isValid emailResult) then errors ++ [error emailResult]
    else errors in
  let passwordResult := validatePassword password in
  let errors :=
    if negb (isValid passwordResult) then errors ++ [error passwordResult]
    else errors in
  let nameResult := validateDisplayName displayName in
  let errors :=
    if negb (isValid nameResult) then errors ++ [error nameResult]
    else errors in
  {| allValid := (List.length errors =? 0)%nat; errors := errors |}.

(** A template literal's rendering of an optional string. *)
Definition interpolate (e : option string) : string :=
  match e with Some s => s | None => "undefined" end.

(** [validateBetData(gameId, side, amount, odds)] *)
Definition validateBetData (gameId side amount odds : value)
  : MultiValidationResult :=
  let errors := [] in
  let errors :=
    match gameId with
    | VString g =>
        if (g =? "")%string then errors ++ [Some "Invalid game ID"%string]
        else errors
    | _ => errors ++ [Some "Invalid game ID"%string]
    end in
  let errors :=
    match side with
    | VString sd =>
        if negb (sd =? "fav")%string && negb (sd =? "dog")%string
        then errors ++ [Some "Side must be either 'fav' or 'dog'"%string]
        else errors
    | _ => errors ++ [Some "Side must be either 'fav' or 'dog'"%string]
    end in
  let amountResult := validateBankroll amount in
  let errors :=
    if negb (isValid amountResult)
    then errors ++ [Some ("Invalid bet amount: "
                          ++ interpolate (error amountResult))%string]
    else errors in
  let oddsResult := validateOdds odds in
  let errors :=
    if negb (isValid oddsResult)
    then errors ++ [Some ("Invalid odds: "
                          ++ interpolate (error oddsResult))%string]
    else errors in
  {| allValid := (List.length errors =? 0)%nat; errors := errors |}.

(* ------------------------------------------------------------------ *)
(** ** The mock games and the Dashboard's league filter                *)
(* ------------------------------------------------------------------ *)

(** The union ['NBA' | 'NCAA' | 'NHL' | 'UFC'] and its strings. *)
Inductive Sport : Type := NBA | NCAA | NHL | UFC.

Definition Sport_string (s : Sport) : string :=
  match s with
  | NBA => "NBA"
  | NCAA => "NCAA"
  | NHL => "NHL"
  | UFC => "UFC"
  end.

(** The union ['fav' | 'dog']. *)
Inductive EVSide : Type := fav | dog.

(** The interface [Game]; [startTime] holds the argument of [new Date]. *)
Record Game : Type := mkGame {
  id : string;
  sport : Sport;
  homeTeam : string;
  awayTeam : string;
  startTime : string;
  sharpSportsbookFavLine : number;
  sharpSportsbookDogLine : number;
  predictionMarketFavLine : number;
  predictionMarketDogLine : number;
  predictionMarketSource : string;
  bestEVSide : EVSide;
  game_evPercentage : number
}.

(** [mockGames] *)
Definition mockGames : list Game :=
  [ mkGame "1" NBA "Lakers" "Celtics" "2026-02-13T19:00:00"
      (Fin (-110)) (Fin (-110)) (Fin (-108)) (Fin (-112)) "Polymarket"
      fav (Fin 2.4);
    mkGame "2" NCAA "Duke" "UNC" "2026-02-13T20:00:00"
      (Fin (-115)) (Fin (-105)) (Fin (-118)) (Fin (-102)) "Novig"
      dog (Fin 1.8);
    mkGame "3" NHL "Bruins" "Rangers" "2026-02-13T19:30:00"
      (Fin (-120)) (Fin 100) (Fin (-115)) (Fin (-105)) "Polymarket"
      fav (Fin 3.1);
    mkGame "4" UFC "Jones" "Miocic" "2026-02-15T22:00:00"
      (Fin (-180)) (Fin 150) (Fin (-170)) (Fin 140) "Polymarket"
      fav (Fin 4.2);
    mkGame "5" NBA "Warriors" "Clippers" "2026-02-13T22:00:00"
      (Fin (-105)) (Fin (-115)) (Fin (-110)) (Fin (-110)) "Novig"
      dog (Fin (-0.5)) ].

(** The type [League] of the Dashboard and its strings. *)
Inductive League : Type := all | nba | ncaa | nhl | ufc.

Definition League_string (l : League) : string :=
  match l with
  | all => "all"
  | nba => "nba"
  | ncaa => "ncaa"
  | nhl => "nhl"
  | ufc => "ufc"
  end.

(** [toLowerCase] on a code unit below 256: A-Z and the capital letters of
    Latin-1 (192-222 but for the multiplication sign 215) move up by 32. *)
Definition lowerCaseChar (c : ascii) : ascii :=
  let n := charCode c in
  if (inRange 65 90 c || (inRange 192 222 c && negb (n =? 215)))%N
  then ascii_of_N (n + 32)
  else c.

(** [s.toLowerCase()] *)
Definition toLowerCase (s : string) : string :=
  string_of_list_ascii (map lowerCaseChar (chars s)).

(** The expression of [filteredGames] in [Dashboard], over a list of games. *)
Definition filterGames (games : list Game) (selectedLeague : League)
  : list Game :=
  match selectedLeague with
  | all => games
  | _ =>
      filter (fun game =>
                (toLowerCase (Sport_string (sport game))
                 =? toLowerCase (League_string selectedLeague))%string)
             games
  end.

(** [filteredGames] in [Dashboard]. *)
Definition filteredGames (selectedLeague : League) : list Game :=
  filterGames mockGames selectedLeague.

(* ------------------------------------------------------------------ *)
(** ** The math utilities in double precision                          *)
(* ------------------------------------------------------------------ *)

(** The functions of [mockData.ts] once more, evaluated as a JavaScript
    engine evaluates them: a [number] is an IEEE-754 binary64 value, here
    Rocq's primitive [float], whose [+], [-], [*] and [/] round to nearest,
    ties to even, as ECMAScript's do, with signed zeros, infinities and
    [NaN].  The properties that depend on rounding, overflow or underflow
    are stated over this module. *)
Module B64.
Import Floats.
Local Open Scope float_scope.

(** The double whose value is the integer [z]; exact for [|z| <= 2^53]. *)
Definition of_integer (z : Z) : float :=
  if (z <? 0)%Z then - of_uint63 (Uint63.of_Z (- z))
  else of_uint63 (Uint63.of_Z z).

(** [Math.abs] *)
Definition Math_abs (x : float) : float := abs x.

(** [Math.round]: [NaN], the infinities, the zeros and the integers are
    returned as they are; any other [x = (-1)^s * m * 2^e] (with [e < 0])
    gives [floor(x + 1/2)], computed exactly, ties towards [+Infinity],
    and [-0] when that integer is 0 and [x] is negative. *)
Definition Math_round (x : float) : float :=
  match Prim2SF x with
  | S754_finite s m e =>
      if (0 <=? e)%Z then x
      else
        let n :=
          Z.shiftr (2 * (if s then Z.neg m else Z.pos m) + Z.shiftl 1 (- e))
                   (1 - e) in
        if (n =? 0)%Z then (if s then neg_zero else zero) else of_integer n
  | _ => x
  end.

(** [Math.max] of two arguments: [NaN] if either is, and [+0] above [-0]. *)
Definition Math_max (a b : float) : float :=
  if is_nan a || is_nan b then nan
  else if a <? b then b
  else if b <? a then a
  else if get_sign a then b else a.

(** [americanToDecimal(americanOdds)] *)
Definition americanToDecimal (americanOdds : float) : float :=
  if americanOdds <? 0 then 100 / Math_abs americanOdds + 1
  else americanOdds / 100 + 1.

(** [americanToImpliedProbability(americanOdds)] *)
Definition americanToImpliedProbability (americanOdds : float) : float :=
  if americanOdds <? 0
  then Math_abs americanOdds / (Math_abs americanOdds + 100)
  else 100 / (americanOdds + 100).

(** [decimalToAmerican(decimalOdds)]; [decimalOdds >= 2] is
    [2 <= decimalOdds]. *)
Definition decimalToAmerican (decimalOdds : float) : float :=
  if 2 <=? decimalOdds then Math_round ((decimalOdds - 1) * 100)
  else Math_round (-100 / (decimalOdds - 1)).

(** [calculateEVPercentage(yourProbability, americanOdds)] *)
Definition calculateEVPercentage (yourProbability americanOdds : float)
  : float :=
  let decimalOdds := americanToDecimal americanOdds in
  let ev := yourProbability * (decimalOdds - 1) - (1 - yourProbability) in
  ev.

(** [calculateKellyCriterion(evPercentage, americanOdds)] *)
Definition calculateKellyCriterion (evPercentage americanOdds : float)
  : float :=
  if evPercentage <=? 0 then 0
  else
    let decimalOdds := americanToDecimal americanOdds in
    let kelly := evPercentage / (decimalOdds - 1) in
    Math_max 0 kelly.

(** The object literal [fractionMap] of [calculateBetSize]. *)
Definition fractionMap (k : KellyFraction) : float :=
  match k with
  | full => 1
  | half => 0.5
  | quarter => 0.25
  end.

(** [calculateBetSize(bankroll, kellyPercentage, kellyFraction = "half")];
    [None] is the omitted third argument. *)
Definition calculateBetSize (bankroll kellyPercentage : float)
    (kellyFraction : option KellyFraction) : float :=
  let kellyFraction :=
    match kellyFraction with Some k => k | None => half end in
  let fraction := fractionMap kellyFraction in
  bankroll * kellyPercentage * fraction.

Record ArbInfo : Type := mkArbInfo {
  hasArbitrage : bool;
  arbPercentage : float
}.

(** [detectArbitrage(oddsA, oddsB)] *)
Definition detectArbitrage (oddsA oddsB : float) : ArbInfo :=
  let probA := americanToImpliedProbability oddsA in
  let probB := americanToImpliedProbability oddsB in
  let probSum := probA + probB in
  let hasArbitrage := probSum <? 1 in
  let arbPercentage := if hasArbitrage then (1 / probSum - 1) * 100 else 0 in
  {| hasArbitrage := hasArbitrage; arbPercentage := arbPercentage |}.


(** The default value of the parameter [testOdds]. *)
Definition defaultTestOdds : list float :=
  [-150; -140; -130; -120; -110; 110; 120; 130; 140; 150].

(** The hedge stake computed inside the callback of
    [calculateArbProfitScenarios] (its local [hedgeBet]). *)
Definition hedgeBet (betAmount decimalOddsA decimalOddsB : float) : float :=
  betAmount * decimalOddsA / decimalOddsB.

(** The local [profit] of the callback: the profit if side A wins. *)
Definition profitIfAWins (betAmount decimalOddsA hedgeBet : float) : float :=
  betAmount * decimalOddsA - betAmount - hedgeBet.



End B64.

(* ------------------------------------------------------------------ *)
(** ** Notions used to state the properties                            *)
(* ------------------------------------------------------------------ *)

(** [|a - b| < eps] on finite numbers; false on the special values. *)
Definition approx (eps : Q) (a b : number) : bool :=
  match a, b with
  | Fin x, Fin y => Qlt_bool (Qabs (x - y)) eps
  | _, _ => false
  end.

(** [r] is a finite number within 1 of the integer [o]. *)
Definition within_one (r : number) (o : Z) : bool :=
  match r with
  | Fin q => Qle_bool (Qabs (q - inject_Z o)) 1
  | _ => false
  end.

(** The conversion to decimal odds as the specification words it
    ([toDecimal], section 4.1): [100/|american| + 1] for a negative quote,
    [american/100 + 1] for a positive one, and a failure ([None]) for
    [american == 0]. *)
Definition toDecimal_spec (american : number) : option number :=
  if (american < Fin 0)%js
  then Some (Fin 100 / Math_abs american + Fin 1)%js
  else if (american > Fin 0)%js
       then Some (american / Fin 100 + Fin 1)%js
       else None.

(** Every number an [Analysis] reports. *)
Definition reportedNumbers (r : Analysis) : list number :=
  [sharpsImpliedProb r; pmImpliedProb r; edgeVsSharps r; edgeVsPM r;
   evPercentage r; fullKellyPercent r; halfKellyBetSize r;
   quarterKellyBetSize r; arbPercentage (arbInfo r)].

(** The value is a number other than [NaN]. *)
Definition isValidNumber (v : value) : bool :=
  match v with
  | VNumber n => negb (isNaN n)
  | _ => false
  end.

(** Letters, and the characters the e-mail and display-name patterns
    allow. *)
Definition isLetter (c : ascii) : bool := isUpper c || isLower c.

Definition isAlnum (c : ascii) : bool := isLetter c || isDigit c.

Definition isOneOf (s : string) (c : ascii) : bool :=
  existsb (Ascii.eqb c) (chars s).

Definition isEmailLocalChar (c : ascii) : bool :=
  isAlnum c || isOneOf "._%+-" c.

Definition isEmailDomainChar (c : ascii) : bool :=
  isAlnum c || isOneOf ".-" c.

Definition isNameChar (c : ascii) : bool :=
  isAlnum c || isWhiteSpace c || isOneOf "-'" c.

(** A control character for [sanitizeString]: below 32, or DEL. *)
Definition isControl (c : ascii) : bool :=
  ((charCode c <? 32) || (charCode c =? 127))%N.

(** A rejection with a message. *)
Definition rejected (r : ValidationResult) : Prop :=
  exists msg : string, r = invalid msg /\ msg <> ""%string.

(** The errors one validator contributes. *)
Definition contributed (r : ValidationResult) : list (option string) :=
  if isValid r then [] else [error r].

Ltac settle_result :=
  repeat match goal with
         | |- context [if ?b then _ else _] => destruct b
         end;
  first [ left; reflexivity
        | right; unfold rejected; eexists; split;
          [reflexivity | discriminate] ].

Ltac by_cases_on_char c :=
  destruct c as [[] [] [] [] [] [] [] []]; reflexivity.

(** The league tab of a sport. *)
Definition leagueOf (s : Sport) : League :=
  match s with
  | NBA => nba
  | NCAA => ncaa
  | NHL => nhl
  | UFC => ufc
  end.

Definition League_eqb (a b : League) : bool :=
  match a, b with
  | all, all | nba, nba | ncaa, ncaa | nhl, nhl | ufc, ufc => true
  | _, _ => false
  end.

(* ------------------------------------------------------------------ *)
(** ** Notions used to state the properties in double precision        *)
(* ------------------------------------------------------------------ *)

Module B64N.
Import Floats.
Import B64.
Local Open Scope float_scope.


(** [|x - y| <= tol]; false when [x - y] is [NaN] or infinite and [tol] is
    finite. *)
Definition close (tol x y : float) : bool := abs (x - y) <=? tol.

(** An integer quote that [validateOdds] accepts. *)
Definition validQuote (z : Z) : Prop := (-1000 <= z <= 10000)%Z /\ z <> 0%Z.

(** [f] holds on the [p] integers from [base] on. *)
Fixpoint all_from (p : positive) (f : Z -> bool) (base : Z) : bool :=
  match p with
  | xH => f base
  | xO q => all_from q f base && all_from q f (base + Z.pos q)%Z
  | xI q =>
      all_from q f base && all_from q f (base + Z.pos q)%Z
      && f (base + Z.pos q~0)%Z
  end.

(** [f] holds on every integer of [[lo, hi]]. *)
Definition forall_between (lo hi : Z) (f : Z -> bool) : bool :=
  match (hi - lo + 1)%Z with
  | Z.pos p => all_from p f lo
  | _ => true
  end.

(** [f] holds on every integer quote that [validateOdds] accepts. *)
Definition forall_validQuote (f : Z -> bool) : bool :=
  forall_between (-1000) 10000 (fun z => (z =? 0)%Z || f z).

(** The stakes at which the hedge is evaluated: the powers of ten up to the
    largest bankroll [validateBankroll] accepts. *)
Definition stakes : list float := [1; 10; 100; 1000; 10000; 100000; 1000000].







(** The decimal odds of the integer quote [z] exceed 1 and their product
    with the implied probability is within [2^-52] of 1. *)
Definition reciprocal_up_to_rounding (z : Z) : bool :=
  let d := americanToDecimal (of_integer z) in
  let p := americanToImpliedProbability (of_integer z) in
  (1 <? d) && close 0x1p-52 (p * d) 1.

(** The American quote of the decimal odds [k/100] is at least 100 when the
    decimal odds are at least 2 and at most -100 below. *)
Definition american_quote_range (k : Z) : bool :=
  let d := of_integer k / 100 in
  let r := decimalToAmerican d in
  if 2 <=? d then 100 <=? r else r <=? -100.

(** The integer quote [z] comes back from its decimal odds (unless it is
    -100), and the decimal odds come back from the quote they convert to. *)
Definition round_trip_exact (z : Z) : bool :=
  let o := of_integer z in
  let d := americanToDecimal o in
  let r := decimalToAmerican d in
  (americanToDecimal r =? d) && ((z =? -100)%Z || (r =? o)).

(** At the integer quote [z] and the probability [k/100], the Kelly fraction
    of the EV is between 0 and the probability, 0 below the implied
    probability, positive above it and at most [2^-50] at it. *)
Definition kelly_of_ev_bounded (z k : Z) : bool :=
  let p := of_integer k / 100 in
  let q := americanToImpliedProbability (of_integer z) in
  let f :=
    calculateKellyCriterion (calculateEVPercentage p (of_integer z))
                            (of_integer z) in
  (0 <=? f) && (f <=? p)
  && (if p <? q then f =? 0 else true)
  && (if q <? p then 0 <? f else true)
  && (if p =? q then f <=? 0x1p-50 else true).

(** Locking the integer quote [a] with [stake] and hedging at [oB]: a
    reported arbitrage comes with a positive profit, and a profit above
    [stake * 10^-9] with a reported arbitrage. *)
Definition arbitrage_agrees_with_profit (stake : float) (a : Z) (oB : float)
  : bool :=
  let dA := americanToDecimal (of_integer a) in
  let h := hedgeBet stake dA (americanToDecimal oB) in
  let p := profitIfAWins stake dA h in
  let arb := hasArbitrage (detectArbitrage (of_integer a) oB) in
  (if arb then 0 <? p else true) && (if stake * 1e-9 <? p then arb else true).

(** The sign classes of a double, read on its specification value. *)


(** A positive finite number or [+Infinity]. *)
Definition positive_sf (x : spec_float) : Prop :=
  match x with
  | S754_infinity false | S754_finite false _ _ => True
  | _ => False
  end.


End B64N.

(* ------------------------------------------------------------------ *)
(** ** Facts about numbers                                             *)
(* ------------------------------------------------------------------ *)

Section FiniteNumbers.

Lemma Qlt_bool_iff (x y : Q) : Qlt_bool x y = true <-> x < y.
Proof.
  unfold Qlt_bool. rewrite negb_true_iff, <- not_true_iff_false, Qle_bool_iff.
  split; [apply Qnot_le_lt | apply Qlt_not_le].
Qed.

Lemma Qlt_bool_false_iff (x y : Q) : Qlt_bool x y = false <-> y <= x.
Proof.
  unfold Qlt_bool. rewrite negb_false_iff. apply Qle_bool_iff.
Qed.

Lemma Qlt_bool_true (x y : Q) : x < y -> Qlt_bool x y = true.
Proof. apply Qlt_bool_iff. Qed.

Lemma Qlt_bool_false (x y : Q) : y <= x -> Qlt_bool x y = false.
Proof. apply Qlt_bool_false_iff. Qed.

Lemma Qeq_bool_false (x y : Q) : ~ x == y -> Qeq_bool x y = false.
Proof.
  intro H. apply not_true_iff_false. intro E. apply H, Qeq_bool_eq, E.
Qed.

Lemma js_lt_Fin (x y : Q) : (Fin x < Fin y)%js = true <-> x < y.
Proof. apply Qlt_bool_iff. Qed.

Lemma js_gt_Fin (x y : Q) : (Fin x > Fin y)%js = true <-> y < x.
Proof. apply Qlt_bool_iff. Qed.

Lemma js_le_Fin (x y : Q) : (Fin x <= Fin y)%js = true <-> x <= y.
Proof.
  unfold js_le; simpl. rewrite orb_true_iff, Qlt_bool_iff, Qeq_bool_iff.
  split; [intros [H | H]; lra | intro H].
  destruct (Qlt_le_dec x y) as [L | L]; [now left | right; lra].
Qed.

Lemma js_ge_Fin (x y : Q) : (Fin x >= Fin y)%js = true <-> y <= x.
Proof. apply js_le_Fin. Qed.

Lemma js_le_Fin_false (x y : Q) : (Fin x <= Fin y)%js = false <-> y < x.
Proof.
  rewrite <- not_true_iff_false, js_le_Fin.
  split; [apply Qnot_le_lt | apply Qlt_not_le].
Qed.

Lemma js_add_Fin (x y : Q) : (Fin x + Fin y)%js = Fin (x + y).
Proof. reflexivity. Qed.

Lemma js_sub_Fin (x y : Q) : (Fin x - Fin y)%js = Fin (x - y).
Proof. reflexivity. Qed.

Lemma js_mul_Fin (x y : Q) : (Fin x * Fin y)%js = Fin (x * y).
Proof. reflexivity. Qed.

Lemma Math_abs_Fin (x : Q) : Math_abs (Fin x) = Fin (Qabs x).
Proof. reflexivity. Qed.

Lemma Math_round_Fin (x : Q) :
  Math_round (Fin x) = Fin (inject_Z (Qfloor (x + (1 # 2)))).
Proof. reflexivity. Qed.

Lemma js_div_Fin (x y : Q) : ~ y == 0 -> (Fin x / Fin y)%js = Fin (x / y).
Proof. intro H. simpl. now rewrite (Qeq_bool_false _ _ H). Qed.

(** A positive finite value over zero is [+Infinity]. *)
Lemma js_div_zero_pos (x z : Q) :
  0 < x -> z == 0 -> (Fin x / Fin z)%js = PInf.
Proof.
  intros H Z. unfold js_div.
  rewrite (Qeq_eq_bool _ _ Z), (Qeq_bool_false x 0) by lra.
  now rewrite (Qlt_bool_true _ _ H).
Qed.

Lemma same_refl (a : number) : a =n= a.
Proof. destruct a; simpl; auto; reflexivity. Qed.

Lemma same_sym (a b : number) : a =n= b -> b =n= a.
Proof. destruct a, b; simpl; auto. intro H; now symmetry. Qed.

Lemma same_trans (a b c : number) : a =n= b -> b =n= c -> a =n= c.
Proof.
  destruct a, b, c; simpl; auto; try contradiction.
  intros H1 H2; now rewrite H1.
Qed.

#[global] Instance same_Equivalence : Equivalence same.
Proof.
  split; [exact same_refl | exact same_sym | exact same_trans].
Qed.

(** Dividing and multiplying back. *)
Lemma Qdiv_mult_back (x y : Q) : ~ y == 0 -> (x / y) * y == x.
Proof. intro H. field. exact H. Qed.

Lemma Qabs_of_neg (x : Q) : x < 0 -> Qabs x == - x.
Proof. intro H. apply Qabs_neg. lra. Qed.

End FiniteNumbers.

Create Rewrite HintDb js_fin.
#[global] Hint Rewrite js_add_Fin js_sub_Fin js_mul_Fin Math_abs_Fin
  Math_round_Fin : js_fin.

(* ------------------------------------------------------------------ *)
(** ** Examples                                                        *)
(* ------------------------------------------------------------------ *)

(** The worked examples of the source's comments. *)
Example americanToDecimal_examples :
  approx 0.001 (americanToDecimal (Fin (-110))) (Fin 1.909) = true /\
  americanToDecimal (Fin 150) =n= Fin 2.5.
Proof. split; vm_compute; reflexivity. Qed.

Example americanToImpliedProbability_examples :
  approx 0.001 (americanToImpliedProbability (Fin (-110))) (Fin 0.524) = true /\
  americanToImpliedProbability (Fin 150) =n= Fin 0.4.
Proof. split; vm_compute; reflexivity. Qed.

Example decimalToAmerican_examples :
  decimalToAmerican (Fin 2.5) = Fin 150 /\
  decimalToAmerican (Fin 1.909) = Fin (-110).
Proof. split; vm_compute; reflexivity. Qed.

Example calculateEVPercentage_example :
  calculateEVPercentage (Fin 0.55) (Fin (-110)) =n= Fin 0.05.
Proof. vm_compute. reflexivity. Qed.

(* ------------------------------------------------------------------ *)
(** ** Odds conversion on finite, non-zero odds                        *)
(* ------------------------------------------------------------------ *)

Lemma americanToDecimal_neg (o : Q) :
  o < 0 -> americanToDecimal (Fin o) = Fin (100 / Qabs o + 1).
Proof.
  intro H. unfold americanToDecimal.
  rewrite (proj2 (js_lt_Fin o 0) H). simpl Math_abs.
  rewrite js_div_Fin; [reflexivity |].
  rewrite (Qabs_of_neg _ H). lra.
Qed.

Lemma americanToDecimal_nonneg (o : Q) :
  0 <= o -> americanToDecimal (Fin o) = Fin (o / 100 + 1).
Proof.
  intro H. unfold americanToDecimal.
  assert (E : (Fin o < Fin 0)%js = false) by (apply Qlt_bool_false; exact H).
  rewrite E. rewrite js_div_Fin; [reflexivity | lra].
Qed.

Lemma americanToImpliedProbability_neg (o : Q) :
  o < 0 ->
  americanToImpliedProbability (Fin o) = Fin (Qabs o / (Qabs o + 100)).
Proof.
  intro H. unfold americanToImpliedProbability.
  rewrite (proj2 (js_lt_Fin o 0) H). simpl Math_abs. simpl js_add.
  rewrite js_div_Fin; [reflexivity |].
  rewrite (Qabs_of_neg _ H). lra.
Qed.

Lemma americanToImpliedProbability_nonneg (o : Q) :
  0 <= o -> americanToImpliedProbability (Fin o) = Fin (100 / (o + 100)).
Proof.
  intro H. unfold americanToImpliedProbability.
  assert (E : (Fin o < Fin 0)%js = false) by (apply Qlt_bool_false; exact H).
  rewrite E. simpl js_add. rewrite js_div_Fin; [reflexivity | lra].
Qed.

Lemma implied_probability_neg_bounds (o : Q) :
  o < 0 -> 0 < Qabs o / (Qabs o + 100) /\ Qabs o / (Qabs o + 100) < 1.
Proof.
  intro H. pose proof (Qabs_of_neg _ H) as A.
  split.
  - apply Qlt_shift_div_l; lra.
  - apply Qlt_shift_div_r; lra.
Qed.

Lemma implied_probability_pos_bounds (o : Q) :
  0 < o -> 0 < 100 / (o + 100) /\ 100 / (o + 100) < 1.
Proof.
  intro H. split.
  - apply Qlt_shift_div_l; lra.
  - apply Qlt_shift_div_r; lra.
Qed.

Lemma implied_probability_Fin (o : Q) :
  ~ o == 0 ->
  exists p : Q, americanToImpliedProbability (Fin o) = Fin p /\ 0 < p < 1.
Proof.
  intro Ho. destruct (Q_dec o 0) as [[H | H] | H]; [| | contradiction].
  - exists (Qabs o / (Qabs o + 100)).
    split; [now apply americanToImpliedProbability_neg |].
    now apply implied_probability_neg_bounds.
  - exists (100 / (o + 100)).
    split; [apply americanToImpliedProbability_nonneg; lra |].
    now apply implied_probability_pos_bounds.
Qed.

(* ------------------------------------------------------------------ *)
(** ** Kelly criterion and stake sizing                                *)
(* ------------------------------------------------------------------ *)

Lemma kelly_nonpositive_ev (ev americanOdds : number) :
  (ev <= Fin 0)%js = true -> calculateKellyCriterion ev americanOdds = Fin 0.
Proof. intro H. unfold calculateKellyCriterion. now rewrite H. Qed.

(* ------------------------------------------------------------------ *)
(** ** Arbitrage detection                                             *)
(* ------------------------------------------------------------------ *)

(** C4. For finite non-zero odds, [detectArbitrage(oddsA, oddsB)] reports
    [hasArbitrage] exactly when the two implied probabilities sum to less
    than 1; [arbPercentage] is then [(1 / probSum - 1) * 100], and exactly 0
    otherwise.  [detectArbitrage(-110, -110)] reports no arbitrage and
    [detectArbitrage(150, 150)] reports one of 25 percent. *)
Theorem arbitrage_detection :
  (forall oA oB : Q,
     ~ oA == 0 -> ~ oB == 0 ->
     exists pA pB : Q,
       americanToImpliedProbability (Fin oA) = Fin pA /\
       americanToImpliedProbability (Fin oB) = Fin pB /\
       (hasArbitrage (detectArbitrage (Fin oA) (Fin oB)) = true
        <-> pA + pB < 1) /\
       (pA + pB < 1 ->
        arbPercentage (detectArbitrage (Fin oA) (Fin oB))
        = Fin ((1 / (pA + pB) - 1) * 100)) /\
       (~ pA + pB < 1 ->
        arbPercentage (detectArbitrage (Fin oA) (Fin oB)) = Fin 0)) /\
  hasArbitrage (detectArbitrage (Fin (-110)) (Fin (-110))) = false /\
  hasArbitrage (detectArbitrage (Fin 150) (Fin 150)) = true /\
  arbPercentage (detectArbitrage (Fin 150) (Fin 150)) =n= Fin 25.
Proof.
  split; [| repeat split; vm_compute; reflexivity].
  intros oA oB HA HB.
  destruct (implied_probability_Fin oA HA) as (pA & EA & BA).
  destruct (implied_probability_Fin oB HB) as (pB & EB & BB).
  exists pA, pB. split; [exact EA |]. split; [exact EB |].
  unfold detectArbitrage. rewrite EA, EB, js_add_Fin.
  cbn [hasArbitrage arbPercentage].
  split; [apply js_lt_Fin |]. split.
  - intro L. rewrite (proj2 (js_lt_Fin _ _) L).
    rewrite js_div_Fin by lra. reflexivity.
  - intro L. destruct (Fin (pA + pB) < Fin 1)%js eqn:E; [| reflexivity].
    apply js_lt_Fin in E. contradiction.
Qed.

Lemma arbitrage_detection_witness :
  exists pA pB : Q,
    americanToImpliedProbability (Fin 150) = Fin pA /\
    americanToImpliedProbability (Fin 150) = Fin pB /\
    (hasArbitrage (detectArbitrage (Fin 150) (Fin 150)) = true
     <-> pA + pB < 1) /\
    (pA + pB < 1 ->
     arbPercentage (detectArbitrage (Fin 150) (Fin 150))
     = Fin ((1 / (pA + pB) - 1) * 100)) /\
    (~ pA + pB < 1 ->
     arbPercentage (detectArbitrage (Fin 150) (Fin 150)) = Fin 0).
Proof.
  apply (proj1 arbitrage_detection 150 150); intro E; discriminate E.
Defined.

(* ------------------------------------------------------------------ *)
(** ** Round trip through decimal odds                                 *)
(* ------------------------------------------------------------------ *)

Lemma Qfloor_plus_half (x : Q) (z : Z) :
  x == inject_Z z -> Qfloor (x + (1 # 2)) = z.
Proof.
  intro E. rewrite E. clear x E.
  pose proof (Qfloor_le (inject_Z z + (1 # 2))) as Lo.
  pose proof (Qlt_floor (inject_Z z + (1 # 2))) as Hi.
  set (k := Qfloor (inject_Z z + (1 # 2))) in *.
  rewrite inject_Z_plus in Hi. change (inject_Z 1) with 1 in Hi.
  destruct (Z.lt_trichotomy k z) as [L | [L | L]]; [| exact L |].
  - assert (L' : (k + 1 <= z)%Z) by lia.
    rewrite Zle_Qle, inject_Z_plus in L'. change (inject_Z 1) with 1 in L'.
    lra.
  - assert (L' : (z + 1 <= k)%Z) by lia.
    rewrite Zle_Qle, inject_Z_plus in L'. change (inject_Z 1) with 1 in L'.
    lra.
Qed.

Lemma Math_round_integer (x : Q) (z : Z) :
  x == inject_Z z -> Math_round (Fin x) = Fin (inject_Z z).
Proof. intro E. rewrite Math_round_Fin. now rewrite (Qfloor_plus_half x z E). Qed.

Lemma decimalToAmerican_underdog (d : Q) :
  2 <= d ->
  decimalToAmerican (Fin d) = Math_round (Fin ((d - 1) * 100)).
Proof.
  intro H. unfold decimalToAmerican.
  now rewrite (proj2 (js_ge_Fin d 2) H).
Qed.

Lemma decimalToAmerican_favorite (d : Q) :
  1 < d -> d < 2 ->
  decimalToAmerican (Fin d) = Math_round (Fin (-100 / (d - 1))).
Proof.
  intros H1 H2. unfold decimalToAmerican.
  assert (E : (Fin d >= Fin 2)%js = false) by (apply js_le_Fin_false; exact H2).
  rewrite E, js_sub_Fin, js_div_Fin by lra. reflexivity.
Qed.

Lemma round_trip_underdog (o : Z) :
  (100 <= o)%Z ->
  decimalToAmerican (americanToDecimal (Fin (inject_Z o))) = Fin (inject_Z o).
Proof.
  intro H. rewrite Zle_Qle in H. change (inject_Z 100) with 100 in H.
  rewrite americanToDecimal_nonneg by lra.
  assert (P : 1 <= inject_Z o / 100) by (apply Qle_shift_div_l; lra).
  rewrite decimalToAmerican_underdog by lra.
  apply Math_round_integer. field.
Qed.

Lemma round_trip_favorite (o : Z) :
  (o < -100)%Z ->
  decimalToAmerican (americanToDecimal (Fin (inject_Z o))) = Fin (inject_Z o).
Proof.
  intro H. rewrite Zlt_Qlt in H. change (inject_Z (-100)) with (-100) in H.
  assert (N : inject_Z o < 0) by lra.
  rewrite (americanToDecimal_neg _ N).
  pose proof (Qabs_of_neg _ N) as A.
  assert (P : 0 < 100 / Qabs (inject_Z o)) by (apply Qlt_shift_div_l; lra).
  assert (P' : 100 / Qabs (inject_Z o) < 1) by (apply Qlt_shift_div_r; lra).
  rewrite decimalToAmerican_favorite by lra.
  apply Math_round_integer. rewrite A. field. lra.
Qed.

(** C3 (amended). For every integer [o] with [|o|] in [100, 10000] other
    than -100, [decimalToAmerican(americanToDecimal(o))] is [o] itself, so
    within 1 of it; this includes the boundary quote +100 (decimal odds 2).
    At the boundary quote -100 the decimal odds are 2 as well, and the
    round trip returns +100. *)
Theorem round_trip_except_minus_100 :
  (forall o : Z,
     (100 <= Z.abs o <= 10000)%Z -> o <> (-100)%Z ->
     decimalToAmerican (americanToDecimal (Fin (inject_Z o)))
     = Fin (inject_Z o) /\
     within_one (decimalToAmerican (americanToDecimal (Fin (inject_Z o)))) o
     = true) /\
  americanToDecimal (Fin 100) =n= Fin 2 /\
  decimalToAmerican (americanToDecimal (Fin 100)) = Fin 100 /\
  americanToDecimal (Fin (-100)) =n= Fin 2 /\
  decimalToAmerican (americanToDecimal (Fin (-100))) = Fin 100.
Proof.
  split; [| repeat split; vm_compute; reflexivity].
  intros o Hr Hne.
  assert (E : decimalToAmerican (americanToDecimal (Fin (inject_Z o)))
              = Fin (inject_Z o)).
  { destruct (Z_le_gt_dec 0 o) as [P | P].
    - apply round_trip_underdog. lia.
    - apply round_trip_favorite. lia. }
  split; [exact E |]. rewrite E. unfold within_one.
  apply Qle_bool_iff.
  assert (Z0 : inject_Z o - inject_Z o == 0) by ring.
  rewrite Z0. discriminate.
Qed.

Lemma round_trip_except_minus_100_witness :
  decimalToAmerican (americanToDecimal (Fin (inject_Z (-250))))
  = Fin (inject_Z (-250)) /\
  within_one (decimalToAmerican (americanToDecimal (Fin (inject_Z (-250)))))
             (-250)
  = true.
Proof.
  apply (proj1 round_trip_except_minus_100 (-250)%Z); [lia | discriminate].
Defined.

(** C3, as stated, fails at [o = -100]: the quote is in range, and the
    round trip returns +100, which is 200 away from it. *)
Lemma round_trip_fails_at_minus_100 :
  (100 <= Z.abs (-100) <= 10000)%Z /\
  decimalToAmerican (americanToDecimal (Fin (inject_Z (-100)))) = Fin 100 /\
  within_one (decimalToAmerican (americanToDecimal (Fin (inject_Z (-100)))))
             (-100)
  = false.
Proof. split; [lia |]. split; vm_compute; reflexivity. Qed.

(* ------------------------------------------------------------------ *)
(** ** Zero odds                                                       *)
(* ------------------------------------------------------------------ *)

Lemma toDecimal_spec_nonzero (o : Q) :
  ~ o == 0 -> toDecimal_spec (Fin o) = Some (americanToDecimal (Fin o)).
Proof.
  intro Ho. unfold toDecimal_spec, americanToDecimal.
  destruct (Fin o < Fin 0)%js eqn:E; [reflexivity |].
  apply Qlt_bool_false_iff in E.
  assert (P : 0 < o) by (destruct (Q_dec o 0) as [[H | H] | H]; [lra | lra | contradiction]).
  now rewrite (proj2 (js_gt_Fin o 0) P).
Qed.

Lemma kelly_zero_odds (ev : Q) :
  0 < ev -> calculateKellyCriterion (Fin ev) (Fin 0) = PInf.
Proof.
  intro H. unfold calculateKellyCriterion.
  rewrite (proj2 (js_le_Fin_false ev 0) H).
  rewrite (americanToDecimal_nonneg 0) by lra.
  cbv zeta. rewrite js_sub_Fin, (js_div_zero_pos ev) by (exact H || field).
  reflexivity.
Qed.

(** C2 (amended). The odds conversion has no failure path.  On finite
    non-zero odds [americanToDecimal] returns what the specified conversion
    returns; for [american == 0] it returns 1.  [calculateKellyCriterion]
    invoked with zero odds returns 0 when [evPercentage <= 0] and
    [+Infinity] for every positive finite [evPercentage].  Zero odds are
    rejected only by the collaborator's [validateOdds], with the message
    "Odds cannot be zero". *)
Theorem zero_odds_behaviour :
  (forall o : Q,
     ~ o == 0 -> toDecimal_spec (Fin o) = Some (americanToDecimal (Fin o))) /\
  americanToDecimal (Fin 0) =n= Fin 1 /\
  (forall ev : number,
     (ev <= Fin 0)%js = true -> calculateKellyCriterion ev (Fin 0) = Fin 0) /\
  (forall ev : Q,
     0 < ev ->
     calculateKellyCriterion (Fin ev) (Fin 0) = PInf /\
     isFinite (calculateKellyCriterion (Fin ev) (Fin 0)) = false) /\
  validateOdds (VNumber (Fin 0)) = invalid "Odds cannot be zero".
Proof.
  split; [exact toDecimal_spec_nonzero |].
  split; [vm_compute; reflexivity |].
  split; [intros ev H; now apply kelly_nonpositive_ev |].
  split; [| reflexivity].
  intros ev H. now rewrite (kelly_zero_odds ev H).
Qed.

Lemma zero_odds_behaviour_witness :
  toDecimal_spec (Fin (-110)) = Some (americanToDecimal (Fin (-110))) /\
  calculateKellyCriterion (Fin (-0.01)) (Fin 0) = Fin 0 /\
  calculateKellyCriterion (Fin 0.05) (Fin 0) = PInf.
Proof.
  destruct zero_odds_behaviour as (Hspec & _ & Hle & Hpos & _).
  split; [apply Hspec; intro E; discriminate E |].
  split; [apply Hle; reflexivity |].
  apply Hpos. reflexivity.
Defined.

(** C2, as stated, fails at [american = 0]: the specified conversion fails
    there, while [americanToDecimal(0)] returns 1, and
    [calculateKellyCriterion(0.05, 0)] silently returns [+Infinity]. *)
Lemma zero_odds_not_rejected :
  toDecimal_spec (Fin 0) = None /\
  americanToDecimal (Fin 0) =n= Fin 1 /\
  calculateKellyCriterion (Fin 0.05) (Fin 0) = PInf /\
  isFinite (calculateKellyCriterion (Fin 0.05) (Fin 0)) = false.
Proof. repeat split; vm_compute; reflexivity. Qed.

(* ------------------------------------------------------------------ *)
(** ** completeAnalysis                                                *)
(* ------------------------------------------------------------------ *)

Lemma js_eq_not_gt (a b : number) : (a === b)%js = true -> (a > b)%js = false.
Proof.
  destruct a as [x | | |], b as [y | | |]; simpl; try discriminate; auto.
  intro E. apply Qeq_bool_eq in E. apply Qlt_bool_false. lra.
Qed.

Lemma js_ge_refl (a : number) : isNaN a = false -> (a >= a)%js = true.
Proof.
  destruct a as [x | | |]; simpl; try discriminate; auto.
  intros _. apply js_le_Fin. lra.
Qed.

Lemma js_gt_ge (a b : number) : (a > b)%js = true -> (a >= b)%js = true.
Proof. unfold js_gt, js_ge, js_le. intro H. now rewrite H. Qed.

Lemma js_not_gt_ge (a b : number) :
  isNaN a = false -> isNaN b = false ->
  (a > b)%js = false -> (b >= a)%js = true.
Proof.
  destruct a as [x | | |], b as [y | | |]; simpl; try discriminate; auto.
  intros _ _ H. apply Qlt_bool_false_iff in H. apply js_le_Fin. exact H.
Qed.

(** C8 (amended). [completeAnalysis] recommends "sharps" exactly when its EV
    is strictly greater than the EV of "pm", so the recommended side has
    the higher EV and equal EVs recommend "pm"; it reports the EV of the
    recommended side, the full Kelly fraction computed from that EV and the
    recommended side's odds, the half- and quarter-Kelly stakes of the
    bankroll (no full-Kelly stake), and [detectArbitrage(sharpsOdds, pmOdds)]. *)
Theorem complete_analysis_aggregation (params : AnalysisParams) :
  let r := completeAnalysis params in
  let evS := calculateEVPercentage (yourProbabilityAgainstFav params)
                                   (sharpsOdds params) in
  let evP := calculateEVPercentage (yourProbabilityAgainstFav params)
                                   (pmOdds params) in
  edgeVsSharps r = evS /\ edgeVsPM r = evP /\
  (recommendedSide r = sharps <-> (evS > evP)%js = true) /\
  (recommendedSide r = pm <-> (evS > evP)%js = false) /\
  ((evS === evP)%js = true -> recommendedSide r = pm) /\
  (recommendedSide r = sharps ->
   evPercentage r = evS /\
   fullKellyPercent r = calculateKellyCriterion evS (sharpsOdds params)) /\
  (recommendedSide r = pm ->
   evPercentage r = evP /\
   fullKellyPercent r = calculateKellyCriterion evP (pmOdds params)) /\
  (isNaN evS = false -> isNaN evP = false ->
   (evPercentage r >= evS)%js = true /\ (evPercentage r >= evP)%js = true) /\
  halfKellyBetSize r
  = (bankroll params * fullKellyPercent r * Fin 0.5)%js /\
  quarterKellyBetSize r
  = (bankroll params * fullKellyPercent r * Fin 0.25)%js /\
  arbInfo r = detectArbitrage (sharpsOdds params) (pmOdds params).
Proof.
  intros r evS evP. subst r. unfold completeAnalysis.
  fold evS evP.
  cbn [edgeVsSharps edgeVsPM recommendedSide evPercentage fullKellyPercent
       halfKellyBetSize quarterKellyBetSize arbInfo].
  destruct (evS > evP)%js eqn:G; cbn [Side_eqb].
  - repeat split; try reflexivity; try discriminate; auto.
    + intro E. rewrite (js_eq_not_gt _ _ E) in G. discriminate.
    + now apply js_ge_refl.
    + now apply js_gt_ge.
  - repeat split; try reflexivity; try discriminate; auto.
    + now apply js_not_gt_ge.
    + now apply js_ge_refl.
Qed.

Lemma complete_analysis_aggregation_witness :
  let params := mkParams (Fin (-110)) (Fin (-120)) (Fin 0.55) (Fin 1000) in
  let r := completeAnalysis params in
  recommendedSide r = sharps /\
  evPercentage r
  = calculateEVPercentage (yourProbabilityAgainstFav params)
                          (sharpsOdds params) /\
  fullKellyPercent r
  = calculateKellyCriterion
      (calculateEVPercentage (yourProbabilityAgainstFav params)
                             (sharpsOdds params))
      (sharpsOdds params) /\
  recommendedSide
    (completeAnalysis (mkParams (Fin 150) (Fin 150) (Fin 0.5) (Fin 1000)))
  = pm.
Proof.
  cbv zeta.
  pose proof (complete_analysis_aggregation
                (mkParams (Fin (-110)) (Fin (-120)) (Fin 0.55) (Fin 1000)))
    as (_ & _ & Hs & _ & _ & Hk & _).
  pose proof (complete_analysis_aggregation
                (mkParams (Fin 150) (Fin 150) (Fin 0.5) (Fin 1000)))
    as (_ & _ & _ & _ & Htie & _).
  assert (S : recommendedSide
                (completeAnalysis
                   (mkParams (Fin (-110)) (Fin (-120)) (Fin 0.55) (Fin 1000)))
              = sharps) by (apply Hs; reflexivity).
  split; [exact S |]. split; [apply (Hk S) |]. split; [apply (Hk S) |].
  apply Htie. reflexivity.
Defined.

(** C8, as stated, fails: with odds -110 and -120, probability 0.55 and a
    bankroll of 1000 the full-Kelly stake is 55, and no number of the result
    is 55 (the result holds the fraction 0.055 and the stakes 27.5 and
    13.75). *)
Lemma full_stake_not_reported :
  let params := mkParams (Fin (-110)) (Fin (-120)) (Fin 0.55) (Fin 1000) in
  let r := completeAnalysis params in
  calculateBetSize (bankroll params) (fullKellyPercent r) (Some full)
  =n= Fin 55 /\
  existsb (js_eq (Fin 55)) (reportedNumbers r) = false /\
  fullKellyPercent r =n= Fin 0.055 /\
  halfKellyBetSize r =n= Fin 27.5 /\
  quarterKellyBetSize r =n= Fin 13.75.
Proof. cbv zeta. repeat split; vm_compute; reflexivity. Qed.

(* ------------------------------------------------------------------ *)
(** ** Validators                                                      *)
(* ------------------------------------------------------------------ *)

Module Validation.

Lemma validateOdds_valid_iff (odds : value) :
  isValid (validateOdds odds) = true <->
  exists q : Q, odds = VNumber (Fin q) /\ -1000 <= q <= 10000 /\ ~ q == 0.
Proof.
  split.
  - destruct odds as [[q | | |] | | | |]; try discriminate.
    cbn [validateOdds isNaN].
    destruct (Fin (-1000) <= Fin q)%js eqn:L; [| discriminate].
    destruct (Fin q <= Fin 10000)%js eqn:U; [| discriminate].
    cbn [andb negb].
    destruct (Fin q === Fin 0)%js eqn:Z; [discriminate |]. intros _.
    exists q. apply js_le_Fin in L, U. apply Qeq_bool_neq in Z.
    repeat split; assumption.
  - intros (q & -> & [L U] & Z). cbn [validateOdds isNaN].
    rewrite (proj2 (js_le_Fin _ _) L), (proj2 (js_le_Fin _ _) U).
    cbn [andb negb]. unfold js_eq. now rewrite (Qeq_bool_false q 0 Z).
Qed.

Lemma validateBankroll_valid_iff (amount : value) :
  isValid (validateBankroll amount) = true <->
  exists q : Q, amount = VNumber (Fin q) /\ 0 <= q <= 1000000.
Proof.
  split.
  - destruct amount as [[q | | |] | | | |]; try discriminate.
    cbn [validateBankroll isNaN].
    destruct (Fin q < Fin 0)%js eqn:L; [discriminate |].
    destruct (Fin q > Fin 1000000)%js eqn:U; [discriminate |]. intros _.
    exists q. apply Qlt_bool_false_iff in L, U. repeat split; assumption.
  - intros (q & -> & [L U]). cbn [validateBankroll isNaN].
    assert (L' : (Fin q < Fin 0)%js = false) by now apply Qlt_bool_false.
    assert (U' : (Fin q > Fin 1000000)%js = false) by now apply Qlt_bool_false.
    now rewrite L', U'.
Qed.

Lemma validateOdds_no_error (odds : value) :
  isValid (validateOdds odds) = true -> error (validateOdds odds) = None.
Proof.
  destruct odds as [n | | | |]; try discriminate. cbn [validateOdds].
  destruct (isNaN n); [discriminate |].
  destruct (negb _); [discriminate |].
  destruct (n === Fin 0)%js; [discriminate | reflexivity].
Qed.

Lemma validateBankroll_no_error (amount : value) :
  isValid (validateBankroll amount) = true ->
  error (validateBankroll amount) = None.
Proof.
  destruct amount as [n | | | |]; try discriminate. cbn [validateBankroll].
  destruct (isNaN n); [discriminate |].
  destruct (n < Fin 0)%js; [discriminate |].
  destruct (n > Fin 1000000)%js; [discriminate | reflexivity].
Qed.

(** Each rejection of [validateOdds] carries the message of the first check
    that failed. *)
Lemma validateOdds_rejection (odds : value) :
  isValid (validateOdds odds) = false ->
  (isValidNumber odds = false /\
   error (validateOdds odds) = Some "Odds must be a valid number"%string) \/
  (exists n : number,
     odds = VNumber n /\ isNaN n = false /\
     ((Fin (-1000) <= n)%js && (n <= Fin 10000)%js = false) /\
     error (validateOdds odds)
     = Some "Odds must be between -1000 and 10000"%string) \/
  (exists n : number,
     odds = VNumber n /\ (n === Fin 0)%js = true /\
     error (validateOdds odds) = Some "Odds cannot be zero"%string).
Proof.
  destruct odds as [n | | | |]; try (intros _; left; split; reflexivity).
  cbn [validateOdds isValidNumber].
  destruct (isNaN n) eqn:N; [intros _; left; split; reflexivity |].
  destruct ((Fin (-1000) <= n)%js && (n <= Fin 10000)%js) eqn:R; cbn [negb].
  - destruct (n === Fin 0)%js eqn:Z; [| discriminate].
    intros _. right; right. exists n. repeat split; assumption.
  - intros _. right; left. exists n. repeat split; assumption.
Qed.

(** Each rejection of [validateBankroll] carries the message of the first
    check that failed. *)
Lemma validateBankroll_rejection (amount : value) :
  isValid (validateBankroll amount) = false ->
  (isValidNumber amount = false /\
   error (validateBankroll amount)
   = Some "Bankroll must be a valid number"%string) \/
  (exists n : number,
     amount = VNumber n /\ (n < Fin 0)%js = true /\
     error (validateBankroll amount)
     = Some "Bankroll cannot be negative"%string) \/
  (exists n : number,
     amount = VNumber n /\ (n > Fin 1000000)%js = true /\
     error (validateBankroll amount)
     = Some "Bankroll exceeds maximum allowed ($1,000,000)"%string).
Proof.
  destruct amount as [n | | | |]; try (intros _; left; split; reflexivity).
  cbn [validateBankroll isValidNumber].
  destruct (isNaN n) eqn:N; [intros _; left; split; reflexivity |].
  destruct (n < Fin 0)%js eqn:L.
  - intros _. right; left. exists n. repeat split; assumption.
  - destruct (n > Fin 1000000)%js eqn:U; [| discriminate].
    intros _. right; right. exists n. repeat split; assumption.
Qed.

(** C9. [validateOdds(odds)] accepts exactly the finite numbers in
    [-1000, 10000] other than 0, and [validateBankroll(amount)] exactly the
    finite numbers in [0, 1000000]; an accepted input carries no error, and
    every rejection carries a non-empty message that names the check that
    failed (not a valid number, out of range, zero, negative, above the
    maximum). *)
Theorem collaborator_input_validation :
  (forall odds : value,
     (isValid (validateOdds odds) = true <->
      exists q : Q,
        odds = VNumber (Fin q) /\ -1000 <= q <= 10000 /\ ~ q == 0) /\
     (isValid (validateOdds odds) = true -> error (validateOdds odds) = None) /\
     (isValid (validateOdds odds) = false ->
      (exists msg : string,
         error (validateOdds odds) = Some msg /\ msg <> ""%string) /\
      ((isValidNumber odds = false /\
        error (validateOdds odds) = Some "Odds must be a valid number"%string)
       \/
       (exists n : number,
          odds = VNumber n /\ isNaN n = false /\
          ((Fin (-1000) <= n)%js && (n <= Fin 10000)%js = false) /\
          error (validateOdds odds)
          = Some "Odds must be between -1000 and 10000"%string) \/
       (exists n : number,
          odds = VNumber n /\ (n === Fin 0)%js = true /\
          error (validateOdds odds) = Some "Odds cannot be zero"%string)))) /\
  (forall amount : value,
     (isValid (validateBankroll amount) = true <->
      exists q : Q, amount = VNumber (Fin q) /\ 0 <= q <= 1000000) /\
     (isValid (validateBankroll amount) = true ->
      error (validateBankroll amount) = None) /\
     (isValid (validateBankroll amount) = false ->
      (exists msg : string,
         error (validateBankroll amount) = Some msg /\ msg <> ""%string) /\
      ((isValidNumber amount = false /\
        error (validateBankroll amount)
        = Some "Bankroll must be a valid number"%string) \/
       (exists n : number,
          amount = VNumber n /\ (n < Fin 0)%js = true /\
          error (validateBankroll amount)
          = Some "Bankroll cannot be negative"%string) \/
       (exists n : number,
          amount = VNumber n /\ (n > Fin 1000000)%js = true /\
          error (validateBankroll amount)
          = Some "Bankroll exceeds maximum allowed ($1,000,000)"%string)))).
Proof.
  split.
  - intro odds. split; [apply validateOdds_valid_iff |]. split.
    + apply validateOdds_no_error.
    + intro H. pose proof (validateOdds_rejection odds H) as R.
      split; [| exact R].
      destruct R as [[_ E] | [(n & _ & _ & _ & E) | (n & _ & _ & E)]];
        rewrite E; eexists; (split; [reflexivity | discriminate]).
  - intro amount. split; [apply validateBankroll_valid_iff |]. split.
    + apply validateBankroll_no_error.
    + intro H. pose proof (validateBankroll_rejection amount H) as R.
      split; [| exact R].
      destruct R as [[_ E] | [(n & _ & _ & E) | (n & _ & _ & E)]];
        rewrite E; eexists; (split; [reflexivity | discriminate]).
Qed.

Lemma collaborator_input_validation_witness :
  error (validateOdds (VNumber (Fin 150))) = None /\
  (exists msg : string,
     error (validateOdds (VNumber (Fin 0))) = Some msg /\ msg <> ""%string) /\
  error (validateBankroll (VNumber (Fin 2500))) = None /\
  (exists msg : string,
     error (validateBankroll (VNumber (Fin (-5)))) = Some msg /\
     msg <> ""%string).
Proof.
  destruct collaborator_input_validation as (Ho & Hb).
  split; [apply (Ho (VNumber (Fin 150))); reflexivity |].
  split; [apply (Ho (VNumber (Fin 0))); reflexivity |].
  split; [apply (Hb (VNumber (Fin 2500))); reflexivity |].
  apply (Hb (VNumber (Fin (-5)))); reflexivity.
Defined.

End Validation.

(* ================================================================== *)
(** * Further properties of the math utilities                         *)
(* ================================================================== *)

(* ------------------------------------------------------------------ *)
(** ** Decimal odds and implied probability                            *)
(* ------------------------------------------------------------------ *)

(** Both conversions of a finite non-zero quote, with what relates them. *)
Lemma odds_conversions (o : Q) :
  ~ o == 0 ->
  exists d p : Q,
    americanToDecimal (Fin o) = Fin d /\
    americanToImpliedProbability (Fin o) = Fin p /\
    1 < d /\ 0 < p /\ p < 1 /\ p == 1 / d.
Proof.
  intro Ho. destruct (Q_dec o 0) as [[H | H] | H]; [| | contradiction].
  - pose proof (Qabs_of_neg _ H) as A.
    exists (100 / Qabs o + 1), (Qabs o / (Qabs o + 100)).
    split; [now apply americanToDecimal_neg |].
    split; [now apply americanToImpliedProbability_neg |].
    assert (P : 0 < 100 / Qabs o) by (apply Qlt_shift_div_l; lra).
    destruct (implied_probability_neg_bounds o H) as [B1 B2].
    repeat split; try lra. field; repeat split; lra.
  - exists (o / 100 + 1), (100 / (o + 100)).
    split; [apply americanToDecimal_nonneg; lra |].
    split; [apply americanToImpliedProbability_nonneg; lra |].
    assert (P : 0 < o / 100) by (apply Qlt_shift_div_l; lra).
    destruct (implied_probability_pos_bounds o H) as [B1 B2].
    repeat split; try lra. field; repeat split; lra.
Qed.

(* ------------------------------------------------------------------ *)
(** ** Arbitrage: symmetry and sign                                    *)
(* ------------------------------------------------------------------ *)

Lemma detectArbitrage_Fin (a b pA pB : Q) :
  americanToImpliedProbability (Fin a) = Fin pA ->
  americanToImpliedProbability (Fin b) = Fin pB ->
  0 < pA + pB ->
  detectArbitrage (Fin a) (Fin b)
  = {| hasArbitrage := Qlt_bool (pA + pB) 1;
       arbPercentage := if Qlt_bool (pA + pB) 1
                        then Fin ((1 / (pA + pB) - 1) * 100)
                        else Fin 0 |}.
Proof.
  intros EA EB P. unfold detectArbitrage. rewrite EA, EB, js_add_Fin.
  change (Fin (pA + pB) < Fin 1)%js with (Qlt_bool (pA + pB) 1).
  destruct (Qlt_bool (pA + pB) 1); [| reflexivity].
  rewrite js_div_Fin by lra. reflexivity.
Qed.

Lemma Qlt_bool_comp (x x' y y' : Q) :
  x == x' -> y == y' -> Qlt_bool x y = Qlt_bool x' y'.
Proof.
  intros Ex Ey. destruct (Qlt_bool x' y') eqn:C.
  - apply Qlt_bool_iff. apply Qlt_bool_iff in C. lra.
  - apply Qlt_bool_false_iff. apply Qlt_bool_false_iff in C. lra.
Qed.

(** X7. For finite non-zero quotes, [detectArbitrage] does not depend on
    the order of its two arguments; when it reports an arbitrage the
    percentage is positive; and two quotes at -100 or below (two
    favorites) never form an arbitrage. *)
Theorem detectArbitrage_symmetric (a b : Q) (Ha : ~ a == 0) (Hb : ~ b == 0) :
  hasArbitrage (detectArbitrage (Fin a) (Fin b))
  = hasArbitrage (detectArbitrage (Fin b) (Fin a)) /\
  arbPercentage (detectArbitrage (Fin a) (Fin b))
  =n= arbPercentage (detectArbitrage (Fin b) (Fin a)) /\
  (hasArbitrage (detectArbitrage (Fin a) (Fin b)) = true ->
   (arbPercentage (detectArbitrage (Fin a) (Fin b)) > Fin 0)%js = true) /\
  (a <= -100 -> b <= -100 ->
   hasArbitrage (detectArbitrage (Fin a) (Fin b)) = false).
Proof.
  destruct (odds_conversions a Ha) as (dA & pA & EdA & EA & HdA & A0 & A1 & RA).
  destruct (odds_conversions b Hb) as (dB & pB & EdB & EB & HdB & B0 & B1 & RB).
  rewrite (detectArbitrage_Fin a b pA pB EA EB) by lra.
  rewrite (detectArbitrage_Fin b a pB pA EB EA) by lra.
  cbn [hasArbitrage arbPercentage].
  assert (C : Qlt_bool (pA + pB) 1 = Qlt_bool (pB + pA) 1)
    by (apply Qlt_bool_comp; ring).
  split; [exact C |]. rewrite <- C.
  split; [| split].
  - destruct (Qlt_bool (pA + pB) 1); simpl; [| reflexivity].
    assert (S : pA + pB == pB + pA) by ring. now rewrite S.
  - intro H. rewrite H. apply js_gt_Fin. apply Qlt_bool_iff in H.
    assert (I : 1 < 1 / (pA + pB)) by (apply Qlt_shift_div_l; lra). lra.
  - intros La Lb. apply Qlt_bool_false.
    assert (Na : a < 0) by lra. assert (Nb : b < 0) by lra.
    rewrite (americanToImpliedProbability_neg a Na) in EA.
    rewrite (americanToImpliedProbability_neg b Nb) in EB.
    injection EA as <-. injection EB as <-.
    pose proof (Qabs_of_neg _ Na) as Aa. pose proof (Qabs_of_neg _ Nb) as Ab.
    assert (Pa : 1 # 2 <= Qabs a / (Qabs a + 100))
      by (apply Qle_shift_div_l; lra).
    assert (Pb : 1 # 2 <= Qabs b / (Qabs b + 100))
      by (apply Qle_shift_div_l; lra).
    lra.
Qed.

Lemma detectArbitrage_symmetric_witness :
  hasArbitrage (detectArbitrage (Fin 150) (Fin (-120)))
  = hasArbitrage (detectArbitrage (Fin (-120)) (Fin 150)) /\
  arbPercentage (detectArbitrage (Fin 150) (Fin (-120)))
  =n= arbPercentage (detectArbitrage (Fin (-120)) (Fin 150)) /\
  hasArbitrage (detectArbitrage (Fin (-110)) (Fin (-110))) = false.
Proof.
  assert (H1 : ~ 150 == 0) by (intro E; discriminate E).
  assert (H2 : ~ -120 == 0) by (intro E; discriminate E).
  assert (H3 : ~ -110 == 0) by (intro E; discriminate E).
  destruct (detectArbitrage_symmetric 150 (-120) H1 H2) as (S1 & S2 & _).
  destruct (detectArbitrage_symmetric (-110) (-110) H3 H3) as (_ & _ & _ & F).
  split; [exact S1 |]. split; [exact S2 |]. apply F; discriminate.
Defined.

(* ================================================================== *)
(** * Regular expressions: the matcher computes [Matches]              *)
(* ================================================================== *)

Section RegexMatcher.

Lemma nullable_Matches (r : Regex) : nullable r = true <-> Matches r [].
Proof.
  split.
  - induction r; simpl; intro H; try discriminate.
    + constructor.
    + apply andb_true_iff in H as [H1 H2].
      change (@nil ascii) with (@nil ascii ++ []). constructor; auto.
    + apply orb_true_iff in H as [H | H];
        [apply MAltL | apply MAltR]; auto.
    + constructor.
  - intro H. remember [] as l eqn:E.
    induction H; simpl; auto; try discriminate.
    + apply app_eq_nil in E as [-> ->]. now rewrite IHMatches1, IHMatches2.
    + rewrite IHMatches; auto.
    + rewrite IHMatches; auto. apply orb_true_r.
Qed.

Lemma Matches_star_cons (r : Regex) (c : ascii) (l : list ascii) :
  Matches (RStar r) (c :: l) ->
  exists l1 l2 : list ascii,
    l = l1 ++ l2 /\ Matches r (c :: l1) /\ Matches (RStar r) l2.
Proof.
  intro H. remember (RStar r) as r' eqn:Er. remember (c :: l) as l' eqn:El.
  revert l El. induction H; intros l0 El; try discriminate.
  injection Er as ->. destruct l1 as [| c1 l1].
  - simpl in El. apply IHMatches2; [reflexivity | exact El].
  - simpl in El. injection El as -> <-. exists l1, l2. auto.
Qed.

Lemma deriv_Matches (r : Regex) :
  forall (c : ascii) (l : list ascii),
    Matches (deriv c r) l <-> Matches r (c :: l).
Proof.
  induction r as [| | negated items | r1 IH1 r2 IH2 | r1 IH1 r2 IH2 | r IH];
    intros c l; simpl.
  - split; intro H; inversion H.
  - split; intro H; inversion H.
  - destruct (set_matches negated items c) eqn:E; split; intro H.
    + inversion H; subst. now constructor.
    + inversion H; subst. constructor.
    + inversion H.
    + inversion H; subst. congruence.
  - destruct (nullable r1) eqn:N; split; intro H.
    + inversion H as [| | | ? ? ? H' | ? ? ? H' | |]; subst.
      * inversion H' as [| | ? ? l1 l2 Ha Hb | | | |]; subst.
        apply IH1 in Ha. change (c :: l1 ++ l2) with ((c :: l1) ++ l2).
        now constructor.
      * apply IH2 in H'. change (c :: l) with ([] ++ c :: l).
        constructor; [now apply nullable_Matches | exact H'].
    + inversion H as [| | ? ? l1 l2 Ha Hb E1 E2 | | | |]; subst.
      destruct l1 as [| c1 l1]; simpl in E2.
      * subst l2. apply MAltR. now apply IH2.
      * injection E2 as -> <-. apply MAltL. constructor; [| exact Hb].
        now apply IH1.
    + inversion H as [| | ? ? l1 l2 Ha Hb | | | |]; subst.
      apply IH1 in Ha. change (c :: l1 ++ l2) with ((c :: l1) ++ l2).
      now constructor.
    + inversion H as [| | ? ? l1 l2 Ha Hb E1 E2 | | | |]; subst.
      destruct l1 as [| c1 l1]; simpl in E2.
      * apply nullable_Matches in Ha. congruence.
      * injection E2 as -> <-. constructor; [| exact Hb]. now apply IH1.
  - split; intro H.
    + inversion H; subst; [apply MAltL; now apply IH1
                          | apply MAltR; now apply IH2].
    + inversion H; subst; [apply MAltL; now apply IH1
                          | apply MAltR; now apply IH2].
  - split; intro H.
    + inversion H as [| | ? ? l1 l2 Ha Hb | | | |]; subst.
      apply IH in Ha. change (c :: l1 ++ l2) with ((c :: l1) ++ l2).
      now constructor.
    + apply Matches_star_cons in H as (l1 & l2 & -> & Ha & Hb).
      constructor; [now apply IH | exact Hb].
Qed.

(** The matcher decides [Matches]. *)
Lemma matches_Matches (l : list ascii) :
  forall r : Regex, matches r l = true <-> Matches r l.
Proof.
  induction l as [| c l IH]; intro r; simpl.
  - apply nullable_Matches.
  - rewrite IH. apply deriv_Matches.
Qed.

Lemma Matches_set_inv (negated : bool) (items : list ClassItem)
    (l : list ascii) :
  Matches (RSet negated items) l ->
  exists c : ascii, l = [c] /\ set_matches negated items c = true.
Proof. intro H. inversion H; subst. eauto. Qed.

Lemma Matches_cat_inv (r1 r2 : Regex) (l : list ascii) :
  Matches (RCat r1 r2) l ->
  exists l1 l2 : list ascii, l = l1 ++ l2 /\ Matches r1 l1 /\ Matches r2 l2.
Proof. intro H. inversion H; subst. eauto. Qed.

(** Repetitions of one class. *)
Lemma Matches_star_set (negated : bool) (items : list ClassItem)
    (l : list ascii) :
  Matches (RStar (RSet negated items)) l
  <-> forallb (set_matches negated items) l = true.
Proof.
  split.
  - intro H. remember (RStar (RSet negated items)) as r eqn:Er.
    induction H; try discriminate; [reflexivity |].
    injection Er as ->. apply Matches_set_inv in H as (c & -> & Hc). simpl.
    rewrite IHMatches2 by reflexivity. now rewrite Hc.
  - induction l as [| c l IH]; simpl; intro H; [constructor |].
    apply andb_true_iff in H as [Hc Hl].
    change (c :: l) with ([c] ++ l). constructor; [now constructor | auto].
Qed.

Lemma Matches_plus_set (negated : bool) (items : list ClassItem)
    (l : list ascii) :
  Matches (RPlus (RSet negated items)) l
  <-> l <> [] /\ forallb (set_matches negated items) l = true.
Proof.
  unfold RPlus. split.
  - intro H. apply Matches_cat_inv in H as (l1 & l2 & -> & Ha & Hb).
    apply Matches_set_inv in Ha as (c & -> & Hc).
    apply Matches_star_set in Hb. simpl.
    split; [discriminate |]. now rewrite Hc, Hb.
  - intros [Hne H]. destruct l as [| c l]; [contradiction |].
    simpl in H. apply andb_true_iff in H as [Hc Hl].
    change (c :: l) with ([c] ++ l).
    constructor; [now constructor | now apply Matches_star_set].
Qed.

Lemma Matches_atleast2_set (negated : bool) (items : list ClassItem)
    (l : list ascii) :
  Matches (RAtLeast2 (RSet negated items)) l
  <-> (2 <= List.length l)%nat /\
      forallb (set_matches negated items) l = true.
Proof.
  unfold RAtLeast2. split.
  - intro H. apply Matches_cat_inv in H as (l1 & l2 & -> & Ha & Hb).
    apply Matches_set_inv in Ha as (c1 & -> & Hc1).
    apply Matches_cat_inv in Hb as (l3 & l4 & -> & Hc & Hd).
    apply Matches_set_inv in Hc as (c2 & -> & Hc2).
    apply Matches_star_set in Hd. simpl.
    split; [lia |]. now rewrite Hc1, Hc2, Hd.
  - intros [Hlen H]. destruct l as [| c1 [| c2 l]]; simpl in Hlen; try lia.
    simpl in H. apply andb_true_iff in H as [H1 H].
    apply andb_true_iff in H as [H2 Hl].
    change (c1 :: c2 :: l) with ([c1] ++ [c2] ++ l).
    constructor; [now constructor |].
    constructor; [now constructor | now apply Matches_star_set].
Qed.

Lemma Matches_any_star (l : list ascii) : Matches (RStar RAny) l.
Proof.
  apply Matches_star_set. induction l as [| c l IH]; [reflexivity |].
  simpl. exact IH.
Qed.

(** An unanchored class finds one code unit of the class. *)
Lemma test_class (negated : bool) (items : list ClassItem) (s : string) :
  RegExp_test (mkRegExp false (RSet negated items) false) s
  = existsb (set_matches negated items) (chars s).
Proof.
  unfold RegExp_test. cbn [body anchoredStart anchoredEnd].
  generalize (chars s). intro l.
  destruct (existsb (set_matches negated items) l) eqn:E.
  - apply matches_Matches. apply existsb_exists in E as (c & Hin & Hc).
    apply in_split in Hin as (l1 & l2 & ->).
    change (l1 ++ c :: l2) with (l1 ++ [c] ++ l2). rewrite app_assoc.
    constructor; [| apply Matches_any_star].
    constructor; [apply Matches_any_star | now constructor].
  - apply not_true_iff_false. intro H. apply matches_Matches in H.
    apply Matches_cat_inv in H as (l1 & l2 & -> & Ha & Hb).
    apply Matches_cat_inv in Ha as (l3 & l4 & -> & Hc & Hd).
    apply Matches_set_inv in Hd as (c & -> & Hd).
    assert (X : existsb (set_matches negated items) ((l3 ++ [c]) ++ l2) = true).
    { apply existsb_exists. exists c. split; [| assumption].
      apply in_or_app. left. apply in_or_app. right. now left. }
    congruence.
Qed.

End RegexMatcher.

(* ================================================================== *)
(** * The string validators                                            *)
(* ================================================================== *)

Lemma upper_class (c : ascii) :
  set_matches false [Rng "A" "Z"] c = isUpper c.
Proof. by_cases_on_char c. Qed.

Lemma lower_class (c : ascii) :
  set_matches false [Rng "a" "z"] c = isLower c.
Proof. by_cases_on_char c. Qed.

Lemma digit_class (c : ascii) : set_matches false [ClsDigit] c = isDigit c.
Proof. by_cases_on_char c. Qed.

Lemma special_class (c : ascii) :
  set_matches true [ClsWord; ClsSpace] c
  = negb (isWord c) && negb (isWhiteSpace c).
Proof. by_cases_on_char c. Qed.

Lemma letter_class (c : ascii) :
  set_matches false [Rng "a" "z"; Rng "A" "Z"] c = isLetter c.
Proof. by_cases_on_char c. Qed.

Lemma email_local_class (c : ascii) :
  set_matches false [Rng "a" "z"; Rng "A" "Z"; Rng "0" "9";
                     Chr "."; Chr "_"; Chr "%"; Chr "+"; Chr "-"] c
  = isEmailLocalChar c.
Proof. by_cases_on_char c. Qed.

Lemma email_domain_class (c : ascii) :
  set_matches false [Rng "a" "z"; Rng "A" "Z"; Rng "0" "9";
                     Chr "."; Chr "-"] c
  = isEmailDomainChar c.
Proof. by_cases_on_char c. Qed.

Lemma name_class (c : ascii) :
  set_matches false [Rng "a" "z"; Rng "A" "Z"; Rng "0" "9"; ClsSpace;
                     Chr "-"; Chr "'"] c
  = isNameChar c.
Proof. by_cases_on_char c. Qed.

Lemma one_char_class (x c : ascii) :
  set_matches false [Chr x] c = true <-> c = x.
Proof.
  unfold set_matches. simpl. rewrite orb_false_r, N.eqb_eq. unfold charCode.
  split; [| now intros ->].
  intro H. rewrite <- (ascii_N_embedding c), H. apply ascii_N_embedding.
Qed.

Lemma forallb_ext_eq {A : Type} (f g : A -> bool) (l : list A) :
  (forall x, f x = g x) -> forallb f l = forallb g l.
Proof. intro H. induction l as [| x l IH]; simpl; congruence. Qed.

Lemma existsb_ext_eq {A : Type} (f g : A -> bool) (l : list A) :
  (forall x, f x = g x) -> existsb f l = existsb g l.
Proof. intro H. induction l as [| x l IH]; simpl; congruence. Qed.

Lemma chars_length (s : string) : List.length (chars s) = String.length s.
Proof. induction s as [| c s IH]; simpl; congruence. Qed.

Lemma chars_string_of_list (l : list ascii) :
  chars (string_of_list_ascii l) = l.
Proof. apply list_ascii_of_string_of_list_ascii. Qed.

(** What [emailRegex] matches. *)
Lemma emailRegex_shape (s : string) :
  RegExp_test emailRegex s = true <->
  exists L D T : list ascii,
    chars s = L ++ "@"%char :: D ++ "."%char :: T /\
    L <> [] /\ forallb isEmailLocalChar L = true /\
    D <> [] /\ forallb isEmailDomainChar D = true /\
    (2 <= List.length T)%nat /\ forallb isLetter T = true.
Proof.
  unfold RegExp_test, emailRegex. cbn [body anchoredStart anchoredEnd].
  rewrite matches_Matches. generalize (chars s). intro l. split.
  - intro H.
    apply Matches_cat_inv in H as (L & l1 & -> & HL & H).
    apply Matches_cat_inv in H as (a & l2 & -> & Ha & H).
    apply Matches_cat_inv in H as (D & l3 & -> & HD & H).
    apply Matches_cat_inv in H as (d & T & -> & Hd & HT).
    apply Matches_set_inv in Ha as (ca & -> & Hca).
    apply Matches_set_inv in Hd as (cd & -> & Hcd).
    apply one_char_class in Hca, Hcd. subst ca cd.
    apply Matches_plus_set in HL as [HL1 HL2].
    apply Matches_plus_set in HD as [HD1 HD2].
    apply Matches_atleast2_set in HT as [HT1 HT2].
    exists L, D, T.
    rewrite (forallb_ext_eq _ _ L email_local_class) in HL2.
    rewrite (forallb_ext_eq _ _ D email_domain_class) in HD2.
    rewrite (forallb_ext_eq _ _ T letter_class) in HT2.
    repeat split; assumption.
  - intros (L & D & T & -> & HL1 & HL2 & HD1 & HD2 & HT1 & HT2).
    rewrite <- (forallb_ext_eq _ _ L email_local_class) in HL2.
    rewrite <- (forallb_ext_eq _ _ D email_domain_class) in HD2.
    rewrite <- (forallb_ext_eq _ _ T letter_class) in HT2.
    constructor; [now apply Matches_plus_set |].
    change ("@"%char :: D ++ "."%char :: T)
      with (["@"%char] ++ D ++ ["."%char] ++ T).
    constructor; [constructor; now apply one_char_class |].
    constructor; [now apply Matches_plus_set |].
    constructor; [constructor; now apply one_char_class |].
    now apply Matches_atleast2_set.
Qed.

(** What [nameRegex] matches. *)
Lemma nameRegex_shape (s : string) :
  RegExp_test nameRegex s = true <->
  chars s <> [] /\ forallb isNameChar (chars s) = true.
Proof.
  unfold RegExp_test, nameRegex. cbn [body anchoredStart anchoredEnd].
  rewrite matches_Matches, Matches_plus_set.
  now rewrite (forallb_ext_eq _ _ (chars s) name_class).
Qed.

Lemma string_eqb_empty (s : string) :
  (s =? "")%string = true <-> chars s = [].
Proof.
  rewrite String.eqb_eq. destruct s; simpl; split; intro H;
    reflexivity || discriminate H.
Qed.

(** X13. [validateEmail] accepts exactly the strings that, once trimmed, have at
    most 254 code units and the shape [local@domain.tld]: a non-empty local
    part of letters, digits and [._%+-], one "@", a non-empty domain of
    letters, digits, dots and hyphens, a dot, and at least two letters. *)
Theorem validateEmail_accepts (v : value) :
  isValid (validateEmail v) = true <->
  exists e : string,
    v = VString e /\
    (String.length (trim e) <= 254)%nat /\
    exists L D T : list ascii,
      chars (trim e) = L ++ "@"%char :: D ++ "."%char :: T /\
      L <> [] /\ forallb isEmailLocalChar L = true /\
      D <> [] /\ forallb isEmailDomainChar D = true /\
      (2 <= List.length T)%nat /\ forallb isLetter T = true.
Proof.
  split.
  - destruct v as [| e | | |]; try discriminate.
    cbn [validateEmail]. cbv zeta.
    destruct (trim e =? "")%string; [discriminate |].
    destruct (254 <? String.length (trim e))%nat eqn:Len; [discriminate |].
    destruct (RegExp_test emailRegex (trim e)) eqn:R; [| discriminate].
    intros _. exists e. split; [reflexivity |].
    apply Nat.ltb_ge in Len. split; [exact Len |].
    now apply emailRegex_shape.
  - intros (e & -> & Len & Shape).
    assert (R : RegExp_test emailRegex (trim e) = true)
      by now apply emailRegex_shape.
    destruct Shape as (L & D & T & E & HL & _).
    cbn [validateEmail]. cbv zeta.
    destruct (trim e =? "")%string eqn:Z.
    + apply string_eqb_empty in Z. rewrite Z in E.
      destruct L; [contradiction | discriminate E].
    + apply Nat.ltb_ge in Len. rewrite Len, R. reflexivity.
Qed.

Lemma email_local_no_at_or_space (c : ascii) :
  isEmailLocalChar c = true ->
  Ascii.eqb c "@" = false /\ isWhiteSpace c = false.
Proof.
  destruct c as [[] [] [] [] [] [] [] []]; intro H;
    (split; reflexivity) || discriminate H.
Qed.

Lemma email_domain_no_at_or_space (c : ascii) :
  isEmailDomainChar c = true ->
  Ascii.eqb c "@" = false /\ isWhiteSpace c = false.
Proof.
  destruct c as [[] [] [] [] [] [] [] []]; intro H;
    (split; reflexivity) || discriminate H.
Qed.

Lemma letter_no_at_or_space (c : ascii) :
  isLetter c = true -> Ascii.eqb c "@" = false /\ isWhiteSpace c = false.
Proof.
  destruct c as [[] [] [] [] [] [] [] []]; intro H;
    (split; reflexivity) || discriminate H.
Qed.

(** The number of "@" in a list of code units. *)
Lemma no_at_no_space (P : ascii -> bool) (l : list ascii) :
  (forall c, P c = true -> Ascii.eqb c "@" = false /\ isWhiteSpace c = false) ->
  forallb P l = true ->
  count_occ ascii_dec l "@"%char = 0%nat /\ existsb isWhiteSpace l = false.
Proof.
  intros HP. induction l as [| c l IH]; simpl; intro H; [split; reflexivity |].
  apply andb_true_iff in H as [Hc Hl]. destruct (IH Hl) as [I1 I2].
  destruct (HP c Hc) as [A W]. rewrite W, I2.
  destruct (ascii_dec c "@") as [-> | N]; [discriminate A | now split].
Qed.

(** X14. An address that [validateEmail] accepts has, once trimmed, between 6
    and 254 code units, exactly one "@" and no white space. *)
Theorem validateEmail_accepted_address (e : string)
    (H : isValid (validateEmail (VString e)) = true) :
  (6 <= String.length (trim e) <= 254)%nat /\
  count_occ ascii_dec (chars (trim e)) "@"%char = 1%nat /\
  existsb isWhiteSpace (chars (trim e)) = false.
Proof.
  cbn [validateEmail] in H. cbv zeta in H.
  destruct (trim e =? "")%string; [discriminate H |].
  destruct (254 <? String.length (trim e))%nat eqn:Len; [discriminate H |].
  destruct (RegExp_test emailRegex (trim e)) eqn:R; [| discriminate H].
  apply Nat.ltb_ge in Len.
  apply emailRegex_shape in R as (L & D & T & Sh
                                  & HL1 & HL2 & HD1 & HD2 & HT1 & HT2).
  destruct (no_at_no_space _ L email_local_no_at_or_space HL2) as [CL WL].
  destruct (no_at_no_space _ D email_domain_no_at_or_space HD2) as [CD WD].
  destruct (no_at_no_space _ T letter_no_at_or_space HT2) as [CT WT].
  rewrite <- chars_length in *. rewrite Sh in *.
  split; [split; [| exact Len] |].
  - rewrite length_app. simpl. rewrite length_app. simpl.
    destruct L; [contradiction |]. destruct D; [contradiction |].
    simpl. lia.
  - split.
    + rewrite count_occ_app, CL. simpl. rewrite count_occ_app, CD. simpl.
      now rewrite CT.
    + rewrite existsb_app, WL. cbn [existsb orb].
      rewrite existsb_app, WD. cbn [existsb orb]. rewrite WT. reflexivity.
Qed.

Lemma validateEmail_accepted_address_witness :
  (6 <= String.length (trim "  bob@example.com ") <= 254)%nat /\
  count_occ ascii_dec (chars (trim "  bob@example.com ")) "@"%char = 1%nat /\
  existsb isWhiteSpace (chars (trim "  bob@example.com ")) = false.
Proof. apply validateEmail_accepted_address. reflexivity. Defined.

(** X15. [validatePassword] accepts exactly the strings of 8 to 128 code units
    that hold an uppercase letter, a lowercase letter, a digit, and a code
    unit that is neither a word character ([A-Za-z0-9_]) nor white space;
    the password is not trimmed. *)
Theorem validatePassword_accepts (v : value) :
  isValid (validatePassword v) = true <->
  exists p : string,
    v = VString p /\
    (8 <= String.length p <= 128)%nat /\
    existsb isUpper (chars p) = true /\
    existsb isLower (chars p) = true /\
    existsb isDigit (chars p) = true /\
    existsb (fun c => negb (isWord c) && negb (isWhiteSpace c)) (chars p)
    = true.
Proof.
  assert (U : forall p, RegExp_test upperRegex p = existsb isUpper (chars p)).
  { intro p. unfold upperRegex. rewrite test_class.
    apply existsb_ext_eq, upper_class. }
  assert (Lw : forall p, RegExp_test lowerRegex p = existsb isLower (chars p)).
  { intro p. unfold lowerRegex. rewrite test_class.
    apply existsb_ext_eq, lower_class. }
  assert (Dg : forall p, RegExp_test digitRegex p = existsb isDigit (chars p)).
  { intro p. unfold digitRegex. rewrite test_class.
    apply existsb_ext_eq, digit_class. }
  assert (Sp : forall p,
             RegExp_test specialRegex p
             = existsb (fun c => negb (isWord c) && negb (isWhiteSpace c))
                 (chars p)).
  { intro p. unfold specialRegex. rewrite test_class.
    apply existsb_ext_eq, special_class. }
  split.
  - destruct v as [| p | | |]; try discriminate.
    cbn [validatePassword]. rewrite U, Lw, Dg, Sp.
    destruct (String.length p <? 8)%nat eqn:L8; [discriminate |].
    destruct (128 <? String.length p)%nat eqn:L128; [discriminate |].
    destruct (existsb isUpper (chars p)) eqn:H1; [| discriminate].
    destruct (existsb isLower (chars p)) eqn:H2; [| discriminate].
    destruct (existsb isDigit (chars p)) eqn:H3; [| discriminate].
    destruct (existsb (fun c => negb (isWord c) && negb (isWhiteSpace c))
                (chars p)) eqn:H4; [| discriminate].
    intros _. exists p. apply Nat.ltb_ge in L8, L128. repeat split; assumption.
  - intros (p & -> & [L8 L128] & H1 & H2 & H3 & H4).
    cbn [validatePassword]. rewrite U, Lw, Dg, Sp, H1, H2, H3, H4.
    apply Nat.ltb_ge in L8, L128. now rewrite L8, L128.
Qed.

(** X16. [validateDisplayName] accepts exactly the strings that, once trimmed,
    have 2 to 100 code units, all of them letters, digits, white space
    (tabs and line breaks included), hyphens or apostrophes. *)
Theorem validateDisplayName_accepts (v : value) :
  isValid (validateDisplayName v) = true <->
  exists n : string,
    v = VString n /\
    (2 <= String.length (trim n) <= 100)%nat /\
    forallb isNameChar (chars (trim n)) = true.
Proof.
  split.
  - destruct v as [| n | | |]; try discriminate.
    cbn [validateDisplayName]. cbv zeta.
    destruct (String.length (trim n) <? 2)%nat eqn:L2; [discriminate |].
    destruct (100 <? String.length (trim n))%nat eqn:L100; [discriminate |].
    destruct (RegExp_test nameRegex (trim n)) eqn:R; [| discriminate].
    intros _. exists n. apply Nat.ltb_ge in L2, L100.
    apply nameRegex_shape in R as [_ R]. repeat split; assumption.
  - intros (n & -> & [L2 L100] & F).
    assert (R : RegExp_test nameRegex (trim n) = true).
    { apply nameRegex_shape. split; [| exact F].
      intro E. rewrite <- chars_length, E in L2. simpl in L2. lia. }
    cbn [validateDisplayName]. cbv zeta.
    apply Nat.ltb_ge in L2, L100. now rewrite L2, L100, R.
Qed.

(* ------------------------------------------------------------------ *)
(** ** sanitizeString                                                  *)
(* ------------------------------------------------------------------ *)

Lemma trimStart_suffix (l : list ascii) :
  exists pre : list ascii, l = pre ++ trimStart l.
Proof.
  induction l as [| c l (pre & IH)]; [now exists [] |].
  simpl. destruct (isWhiteSpace c).
  - exists (c :: pre). simpl. now rewrite <- IH.
  - now exists [].
Qed.

Lemma trimEnd_prefix (l : list ascii) :
  exists post : list ascii, l = trimEnd l ++ post.
Proof.
  unfold trimEnd. destruct (trimStart_suffix (rev l)) as (pre & E).
  exists (rev pre). rewrite <- rev_app_distr, <- E. now rewrite rev_involutive.
Qed.

(** [trim] keeps a contiguous part of the string. *)
Lemma trim_part (s : string) :
  exists pre post : list ascii, chars s = pre ++ chars (trim s) ++ post.
Proof.
  unfold trim. rewrite chars_string_of_list.
  destruct (trimStart_suffix (chars s)) as (pre & E1).
  destruct (trimEnd_prefix (trimStart (chars s))) as (post & E2).
  exists pre, post. now rewrite <- E2.
Qed.

Lemma trim_length (s : string) :
  (String.length (trim s) <= String.length s)%nat.
Proof.
  destruct (trim_part s) as (pre & post & E).
  rewrite <- !chars_length, E, !length_app. lia.
Qed.

Lemma removeControl_clean (l : list ascii) :
  existsb isControl (removeControl l) = false.
Proof.
  induction l as [| c l IH]; [reflexivity |]. simpl.
  destruct ((32 <=? charCode c)%N && negb (charCode c =? 127)%N) eqn:E;
    [| exact IH].
  simpl. rewrite IH. unfold isControl.
  apply andb_true_iff in E as [E1 E2]. apply negb_true_iff in E2.
  rewrite E2. apply N.leb_le in E1.
  assert (L : (charCode c <? 32)%N = false) by (apply N.ltb_ge; exact E1).
  now rewrite L.
Qed.

Lemma removeControl_length (l : list ascii) :
  (List.length (removeControl l) <= List.length l)%nat.
Proof.
  induction l as [| c l IH]; [reflexivity |]. simpl.
  destruct ((32 <=? charCode c)%N && negb (charCode c =? 127)%N); simpl; lia.
Qed.

Lemma removeControl_id (l : list ascii) :
  existsb isControl l = false -> removeControl l = l.
Proof.
  induction l as [| c l IH]; [reflexivity |]. simpl. intro H.
  apply orb_false_iff in H as [Hc Hl]. unfold isControl in Hc.
  apply orb_false_iff in Hc as [H1 H2]. apply N.ltb_ge in H1.
  apply N.leb_le in H1. rewrite H1, H2. simpl. now rewrite IH.
Qed.

Lemma substringEnd_le (m : number) (len : nat) :
  (substringEnd m len <= len)%nat.
Proof.
  destruct m as [q | | |]; simpl; try lia.
  destruct (Qle_bool q 0); lia.
Qed.

Lemma substringEnd_bound (q : Q) (len : nat) :
  0 <= q -> inject_Z (Z.of_nat (substringEnd (Fin q) len)) <= q.
Proof.
  intro H. simpl. destruct (Qle_bool q 0); [exact H |].
  assert (F : (0 <= Qfloor q)%Z).
  { change 0%Z with (Qfloor 0). now apply Qfloor_resp_le. }
  apply Qle_trans with (inject_Z (Qfloor q)); [| apply Qfloor_le].
  rewrite <- Zle_Qle. lia.
Qed.

Lemma sanitized_length (t : string) (m : number) :
  (List.length
     (removeControl
        (firstn (substringEnd m (List.length (chars (trim t))))
                (chars (trim t))))
   <= substringEnd m (List.length (chars (trim t))))%nat.
Proof.
  eapply Nat.le_trans; [apply removeControl_length |].
  rewrite length_firstn. lia.
Qed.

(** X17. [sanitizeString] never returns a control character (a code unit
    below 32, or 127); its result is never longer than the text, nor than a
    non-negative [maxLength], nor than 500 code units when [maxLength] is
    omitted; a [maxLength] that is zero, negative or [NaN] gives the empty
    string, and so does a text that is not a string. *)
Theorem sanitizeString_output (text : value) (maxLength : option number) :
  let r := sanitizeString text maxLength in
  existsb isControl (chars r) = false /\
  (forall t : string,
     text = VString t -> (String.length r <= String.length t)%nat) /\
  (forall q : Q,
     maxLength = Some (Fin q) ->
     (0 <= q -> inject_Z (Z.of_nat (String.length r)) <= q) /\
     (q <= 0 -> r = ""%string)) /\
  (maxLength = Some NaN -> r = ""%string) /\
  (maxLength = None -> (String.length r <= 500)%nat) /\
  ((forall t : string, text <> VString t) -> r = ""%string).
Proof.
  cbv zeta.
  destruct text as [n | t | b | |];
    try (cbn [sanitizeString]; repeat split; intros;
         try reflexivity; try discriminate; simpl;
         try (apply Qle_trans with 0; [discriminate | assumption]); lia).
  unfold sanitizeString.
  set (m := match maxLength with Some n => n | None => Fin 500 end).
  set (l := chars (trim t)).
  rewrite chars_string_of_list, <- (chars_length (string_of_list_ascii _)),
    chars_string_of_list.
  pose proof (sanitized_length t m) as Len. fold l in Len.
  split; [apply removeControl_clean |].
  split.
  { intros t' E. injection E as <-.
    pose proof (substringEnd_le m (List.length l)) as B.
    pose proof (trim_length t) as T. unfold l in *.
    rewrite chars_length in *. lia. }
  split.
  { intros q E. subst maxLength. subst m. split.
    - intro Hq. apply Qle_trans
        with (inject_Z (Z.of_nat (substringEnd (Fin q) (List.length l))));
        [| now apply substringEnd_bound].
      rewrite <- Zle_Qle. lia.
    - intro Hq. simpl. simpl in Len.
      rewrite (proj2 (Qle_bool_iff q 0) Hq) in *. reflexivity. }
  split; [intro E; subst maxLength; reflexivity |].
  split.
  { intro E. subst maxLength. subst m.
    change (substringEnd (Fin 500) (List.length l))
      with (Nat.min 500 (List.length l)) in *. lia. }
  intro H. exfalso. now apply (H t).
Qed.

Lemma substringEnd_all (q : Q) (len : nat) :
  inject_Z (Z.of_nat len) <= q -> substringEnd (Fin q) len = len.
Proof.
  intro H. simpl. destruct (Qle_bool q 0) eqn:E.
  - apply Qle_bool_iff in E.
    assert (Z : inject_Z (Z.of_nat len) <= inject_Z 0)
      by (apply Qle_trans with q; assumption).
    rewrite <- Zle_Qle in Z. lia.
  - assert (F : (Z.of_nat len <= Qfloor q)%Z).
    { rewrite <- (Qfloor_Z (Z.of_nat len)). now apply Qfloor_resp_le. }
    lia.
Qed.

Lemma trim_clean (t : string) :
  existsb isControl (chars t) = false ->
  existsb isControl (chars (trim t)) = false.
Proof.
  destruct (trim_part t) as (pre & post & E). rewrite E, !existsb_app.
  intro H. apply orb_false_iff in H as [_ H].
  now apply orb_false_iff in H as [H _].
Qed.

(** X18. A text without control characters that fits in the limit after
    trimming is returned trimmed and otherwise unchanged, with the default
    limit of 500 as with an explicit one. *)
Theorem sanitizeString_clean_text (t : string)
    (Hclean : existsb isControl (chars t) = false) :
  ((String.length (trim t) <= 500)%nat ->
   sanitizeString (VString t) None = trim t) /\
  (forall q : Q,
     inject_Z (Z.of_nat (String.length (trim t))) <= q ->
     sanitizeString (VString t) (Some (Fin q)) = trim t).
Proof.
  assert (G : forall q : Q,
             inject_Z (Z.of_nat (String.length (trim t))) <= q ->
             sanitizeString (VString t) (Some (Fin q)) = trim t).
  { intros q Hq. unfold sanitizeString.
    rewrite chars_length, (substringEnd_all q _ Hq), <- chars_length.
    rewrite firstn_all, (removeControl_id _ (trim_clean t Hclean)).
    apply string_of_list_ascii_of_string. }
  split; [| exact G].
  intro H. change (sanitizeString (VString t) None)
    with (sanitizeString (VString t) (Some (Fin 500))).
  apply G. change 500 with (inject_Z (Z.of_nat 500)).
  rewrite <- Zle_Qle. lia.
Qed.

Lemma sanitizeString_clean_text_witness :
  sanitizeString (VString "  Go Lakers!  ") None = trim "  Go Lakers!  " /\
  sanitizeString (VString "  Go Lakers!  ") (Some (Fin 10.5))
  = trim "  Go Lakers!  ".
Proof.
  assert (C : existsb isControl (chars "  Go Lakers!  ") = false)
    by reflexivity.
  destruct (sanitizeString_clean_text "  Go Lakers!  " C) as [H1 H2].
  split; [apply H1; vm_compute; lia |].
  apply H2. vm_compute. discriminate.
Defined.

(* ------------------------------------------------------------------ *)
(** ** validateSignupData and validateBetData                          *)
(* ------------------------------------------------------------------ *)

Lemma invalid_rejected (msg : string) :
  msg <> ""%string -> rejected (invalid msg).
Proof. intro H. now exists msg. Qed.

Lemma validateEmail_result (v : value) :
  validateEmail v = valid \/ rejected (validateEmail v).
Proof. destruct v; cbn [validateEmail]; cbv zeta; settle_result. Qed.

Lemma validatePassword_result (v : value) :
  validatePassword v = valid \/ rejected (validatePassword v).
Proof. destruct v; cbn [validatePassword]; settle_result. Qed.

Lemma validateDisplayName_result (v : value) :
  validateDisplayName v = valid \/ rejected (validateDisplayName v).
Proof. destruct v; cbn [validateDisplayName]; cbv zeta; settle_result. Qed.

Lemma validateBankroll_result (v : value) :
  validateBankroll v = valid \/ rejected (validateBankroll v).
Proof. destruct v; cbn [validateBankroll]; settle_result. Qed.

Lemma validateOdds_result (v : value) :
  validateOdds v = valid \/ rejected (validateOdds v).
Proof. destruct v; cbn [validateOdds]; settle_result. Qed.

Lemma contributed_spec (r : ValidationResult) :
  r = valid \/ rejected r ->
  (contributed r = [] <-> isValid r = true) /\
  (forall x, In x (contributed r) ->
             exists msg : string, x = Some msg /\ msg <> ""%string).
Proof.
  intros [-> | (msg & -> & Hm)]; unfold contributed; simpl.
  - split; [split; reflexivity | intros x []].
  - split; [split; discriminate |].
    intros x [<- | []]. now exists msg.
Qed.

(** X19. [validateSignupData] is valid exactly when the e-mail, the password
    and the display name are all valid; its errors are the messages of the
    failing validators, in that order, one each, and never [undefined]. *)
Theorem validateSignupData_collects (email password displayName : value) :
  let r := validateSignupData email password displayName in
  errors r
  = contributed (validateEmail email)
    ++ contributed (validatePassword password)
    ++ contributed (validateDisplayName displayName) /\
  (allValid r = true <->
   isValid (validateEmail email) = true /\
   isValid (validatePassword password) = true /\
   isValid (validateDisplayName displayName) = true) /\
  (allValid r = true <-> errors r = []) /\
  (List.length (errors r) <= 3)%nat /\
  (forall x : option string,
     In x (errors r) -> exists msg : string, x = Some msg /\ msg <> ""%string).
Proof.
  cbv zeta.
  destruct (contributed_spec _ (validateEmail_result email)) as [E1 E2].
  destruct (contributed_spec _ (validatePassword_result password)) as [P1 P2].
  destruct (contributed_spec _ (validateDisplayName_result displayName))
    as [N1 N2].
  assert (F : errors (validateSignupData email password displayName)
              = contributed (validateEmail email)
                ++ contributed (validatePassword password)
                ++ contributed (validateDisplayName displayName)).
  { unfold validateSignupData, contributed. cbn [errors].
    destruct (isValid (validateEmail email)),
      (isValid (validatePassword password)),
      (isValid (validateDisplayName displayName)); reflexivity. }
  assert (V : allValid (validateSignupData email password displayName) = true
              <-> errors (validateSignupData email password displayName) = []).
  { unfold validateSignupData. cbn [allValid errors].
    rewrite Nat.eqb_eq. apply length_zero_iff_nil. }
  split; [exact F |]. split; [| split; [exact V | split]].
  - rewrite V, F, <- E1, <- P1, <- N1. split.
    + intro H. apply app_eq_nil in H as [H1 H].
      apply app_eq_nil in H as [H2 H3]. auto.
    + intros (-> & -> & ->). reflexivity.
  - rewrite F, !length_app. unfold contributed.
    destruct (isValid (validateEmail email)),
      (isValid (validatePassword password)),
      (isValid (validateDisplayName displayName)); simpl; lia.
  - intros x. rewrite F. intro H.
    apply in_app_or in H as [H | H]; [now apply E2 |].
    apply in_app_or in H as [H | H]; [now apply P2 | now apply N2].
Qed.

(** X20. [validateBetData] is valid exactly when the game id is a non-empty
    string, the side is "fav" or "dog", the amount is a finite number in
    [0, 1000000] (an amount of 0 is accepted) and the odds are a finite
    non-zero number in [-1000, 10000]; it reports at most four errors, one
    for each failing check. *)
Theorem validateBetData_accepts (gameId side amount odds : value) :
  let r := validateBetData gameId side amount odds in
  (allValid r = true <->
   (exists g : string, gameId = VString g /\ g <> ""%string) /\
   (side = VString "fav" \/ side = VString "dog") /\
   (exists a : Q, amount = VNumber (Fin a) /\ 0 <= a <= 1000000) /\
   (exists o : Q,
      odds = VNumber (Fin o) /\ -1000 <= o <= 10000 /\ ~ o == 0)) /\
  (allValid r = true <-> errors r = []) /\
  (List.length (errors r) <= 4)%nat /\
  (isValid (validateBankroll amount) = false ->
   exists msg : string,
     error (validateBankroll amount) = Some msg /\
     In (Some ("Invalid bet amount: " ++ msg)%string) (errors r)) /\
  (isValid (validateOdds odds) = false ->
   exists msg : string,
     error (validateOdds odds) = Some msg /\
     In (Some ("Invalid odds: " ++ msg)%string) (errors r)).
Proof.
  cbv zeta.
  set (eg := match gameId with
             | VString g => if (g =? "")%string
                            then [Some "Invalid game ID"%string] else []
             | _ => [Some "Invalid game ID"%string]
             end).
  set (es := match side with
             | VString sd =>
                 if negb (sd =? "fav")%string && negb (sd =? "dog")%string
                 then [Some "Side must be either 'fav' or 'dog'"%string]
                 else []
             | _ => [Some "Side must be either 'fav' or 'dog'"%string]
             end).
  set (ea := if isValid (validateBankroll amount) then []
             else [Some ("Invalid bet amount: "
                         ++ interpolate (error (validateBankroll amount)))%string]).
  set (eo := if isValid (validateOdds odds) then []
             else [Some ("Invalid odds: "
                         ++ interpolate (error (validateOdds odds)))%string]).
  assert (F : errors (validateBetData gameId side amount odds)
              = eg ++ es ++ ea ++ eo).
  { unfold validateBetData, eg, es, ea, eo. cbn [errors].
    destruct gameId as [| g | | |]; try destruct (g =? "")%string;
      destruct side as [| sd | | |];
      try destruct (negb (sd =? "fav")%string && negb (sd =? "dog")%string);
      destruct (isValid (validateBankroll amount)),
        (isValid (validateOdds odds)); reflexivity. }
  assert (V : allValid (validateBetData gameId side amount odds) = true
              <-> errors (validateBetData gameId side amount odds) = []).
  { unfold validateBetData. cbn [allValid errors].
    rewrite Nat.eqb_eq. apply length_zero_iff_nil. }
  assert (G : eg = [] <-> exists g : string, gameId = VString g /\ g <> ""%string).
  { unfold eg. destruct gameId as [| g | | |];
      try (split; [discriminate | intros (g' & E & _); discriminate E]).
    destruct (g =? "")%string eqn:Z.
    - apply String.eqb_eq in Z. split; [discriminate |].
      intros (g' & E & N). injection E as <-. contradiction.
    - apply String.eqb_neq in Z. split; [| reflexivity].
      intros _. now exists g. }
  assert (S : es = [] <-> side = VString "fav" \/ side = VString "dog").
  { unfold es. destruct side as [| sd | | |];
      try (split; [discriminate | intros [E | E]; discriminate E]).
    destruct (sd =? "fav")%string eqn:Fv; simpl.
    - apply String.eqb_eq in Fv. subst sd. split; [now left | reflexivity].
    - destruct (sd =? "dog")%string eqn:Dg; simpl.
      + apply String.eqb_eq in Dg. subst sd. split; [now right | reflexivity].
      + apply String.eqb_neq in Fv, Dg. split; [discriminate |].
        intros [E | E]; injection E as ->; contradiction. }
  assert (A : ea = [] <-> isValid (validateBankroll amount) = true).
  { unfold ea. destruct (isValid (validateBankroll amount));
      split; reflexivity || discriminate. }
  assert (O : eo = [] <-> isValid (validateOdds odds) = true).
  { unfold eo. destruct (isValid (validateOdds odds));
      split; reflexivity || discriminate. }
  split; [| split; [exact V | split; [| split]]].
  - rewrite V, F, <- G, <- S, <- Validation.validateBankroll_valid_iff,
      <- Validation.validateOdds_valid_iff, <- A, <- O.
    split.
    + intro H. apply app_eq_nil in H as [H1 H].
      apply app_eq_nil in H as [H2 H]. apply app_eq_nil in H as [H3 H4]. auto.
    + intros (-> & -> & -> & ->). reflexivity.
  - rewrite F, !length_app.
    assert (Lg : (List.length eg <= 1)%nat).
    { unfold eg. destruct gameId as [| g | | |];
        try destruct (g =? "")%string; simpl; lia. }
    assert (Ls : (List.length es <= 1)%nat).
    { unfold es. destruct side as [| sd | | |];
        try destruct (negb (sd =? "fav")%string && negb (sd =? "dog")%string);
        simpl; lia. }
    assert (La : (List.length ea <= 1)%nat)
      by (unfold ea; destruct (isValid (validateBankroll amount)); simpl; lia).
    assert (Lo : (List.length eo <= 1)%nat)
      by (unfold eo; destruct (isValid (validateOdds odds)); simpl; lia).
    lia.
  - intro H. destruct (validateBankroll_result amount) as [E | (msg & E & _)];
      [rewrite E in H; discriminate H |].
    exists msg. split; [rewrite E; reflexivity |].
    rewrite F. apply in_or_app. right. apply in_or_app. right.
    apply in_or_app. left. unfold ea. rewrite H, E. now left.
  - intro H. destruct (validateOdds_result odds) as [E | (msg & E & _)];
      [rewrite E in H; discriminate H |].
    exists msg. split; [rewrite E; reflexivity |].
    rewrite F. apply in_or_app. right. apply in_or_app. right.
    apply in_or_app. right. unfold eo. rewrite H, E. now left.
Qed.

(* ------------------------------------------------------------------ *)
(** ** ProtectedRoute                                                  *)
(* ------------------------------------------------------------------ *)

(** X21. [ProtectedRoute] renders its children exactly when the auth context
    has finished loading and holds an approved user; while loading it shows
    the loading screen, and in every other case it navigates to the login
    page. *)
Theorem ProtectedRoute_gate (cu : option User) (loading : bool) :
  (ProtectedRoute cu loading = Children <->
   loading = false /\ exists u : User, cu = Some u /\ approved u = true) /\
  (ProtectedRoute cu loading = LoadingScreen <-> loading = true) /\
  (ProtectedRoute cu loading = NavigateToLogin <->
   loading = false /\
   (cu = None \/ exists u : User, cu = Some u /\ approved u = false)).
Proof.
  unfold ProtectedRoute.
  destruct loading; [| destruct cu as [u |]; [destruct (approved u) eqn:A |]];
    simpl; repeat split; try discriminate; try reflexivity; intros;
    repeat match goal with
           | H : _ /\ _ |- _ => destruct H
           | H : _ \/ _ |- _ => destruct H
           | H : exists _, _ |- _ => destruct H
           | H : Some _ = Some _ |- _ => injection H as <-
           end;
    try discriminate; try congruence; eauto.
Qed.

(* ------------------------------------------------------------------ *)
(** ** The league filter                                               *)
(* ------------------------------------------------------------------ *)

Lemma league_test (s : Sport) (l : League) :
  l <> all ->
  ((toLowerCase (Sport_string s) =? toLowerCase (League_string l))%string
   = true <-> leagueOf s = l).
Proof.
  intro H. destruct s, l; try contradiction;
    vm_compute; split; intro E; reflexivity || discriminate E.
Qed.

Lemma League_eqb_eq (a b : League) : League_eqb a b = true <-> a = b.
Proof. destruct a, b; simpl; split; intro E; reflexivity || discriminate E. Qed.

Lemma filterGames_league (games : list Game) (l : League) :
  l <> all ->
  filterGames games l
  = filter (fun g => League_eqb (leagueOf (sport g)) l) games.
Proof.
  intro H.
  assert (E : filterGames games l
              = filter (fun game =>
                          (toLowerCase (Sport_string (sport game))
                           =? toLowerCase (League_string l))%string) games)
    by (destruct l; [contradiction | reflexivity ..]).
  rewrite E. apply filter_ext. intro g.
  destruct (League_eqb (leagueOf (sport g)) l) eqn:B.
  - apply league_test; [exact H | now apply League_eqb_eq].
  - apply not_true_iff_false. intro T. apply league_test in T; [| exact H].
    apply League_eqb_eq in T. congruence.
Qed.

(** X22. The league filter of the Dashboard keeps, in their order, exactly
    the games whose sport is the selected league, and every game under
    "all"; so each game is listed under exactly one of the four league
    tabs, and the four lists together are as long as the list of games.
    With the mock games no tab is empty. *)
Theorem league_filter_partitions (games : list Game) :
  filterGames games all = games /\
  (forall l : League,
     l <> all ->
     filterGames games l
     = filter (fun g => League_eqb (leagueOf (sport g)) l) games) /\
  (forall (l : League) (g : Game),
     l <> all ->
     (In g (filterGames games l) <-> In g games /\ leagueOf (sport g) = l)) /\
  (List.length (filterGames games nba) + List.length (filterGames games ncaa)
   + List.length (filterGames games nhl) + List.length (filterGames games ufc)
   = List.length games)%nat /\
  (forall l : League, filteredGames l <> []).
Proof.
  split; [reflexivity |]. split; [intros l H; now apply filterGames_league |].
  split; [| split].
  - intros l g H. rewrite (filterGames_league games l H), filter_In.
    now rewrite League_eqb_eq.
  - rewrite !filterGames_league by discriminate.
    induction games as [| g games IH]; [reflexivity |].
    cbn [filter List.length]. destruct (sport g); cbn [leagueOf League_eqb];
      cbn [List.length]; lia.
  - intro l. destruct l; discriminate.
Qed.

(* ------------------------------------------------------------------ *)
(** ** Instances                                                       *)
(* ------------------------------------------------------------------ *)

Lemma validateEmail_accepts_witness :
  isValid (validateEmail (VString " bob@example.com ")) = true.
Proof.
  apply validateEmail_accepts. exists " bob@example.com "%string.
  split; [reflexivity |]. split; [vm_compute; lia |].
  exists (chars "bob"), (chars "example"), (chars "com").
  repeat split; try reflexivity; try discriminate. simpl. lia.
Defined.

Lemma validatePassword_accepts_witness :
  isValid (validatePassword (VString "Abcdef1!")) = true.
Proof.
  apply validatePassword_accepts. exists "Abcdef1!"%string.
  split; [reflexivity |]. split; [simpl; lia |].
  repeat split; reflexivity.
Defined.

Lemma validateDisplayName_accepts_witness :
  isValid (validateDisplayName (VString " O'Neil-Smith 2 ")) = true.
Proof.
  apply validateDisplayName_accepts. exists " O'Neil-Smith 2 "%string.
  split; [reflexivity |]. split; [vm_compute; lia | reflexivity].
Defined.

Lemma sanitizeString_output_witness :
  existsb isControl
    (chars (sanitizeString (VString "  line one and two  ") None)) = false /\
  (String.length (sanitizeString (VString "  line one and two  ") None)
   <= 500)%nat /\
  sanitizeString (VString "  line one and two  ") (Some (Fin (-3))) = ""%string.
Proof.
  destruct (sanitizeString_output (VString "  line one and two  ") None)
    as (C & _ & _ & _ & L & _).
  destruct (sanitizeString_output (VString "  line one and two  ")
                                  (Some (Fin (-3))))
    as (_ & _ & Q & _).
  split; [exact C |]. split; [now apply L |].
  apply (Q (-3)); [reflexivity | discriminate].
Defined.

Lemma validateSignupData_collects_witness :
  allValid (validateSignupData (VString "bob@example.com")
                               (VString "Abcdef1!") (VString "Bob")) = true /\
  allValid (validateSignupData (VString "bob") (VString "Abcdef1!")
                               (VString "Bob")) = false.
Proof.
  destruct (validateSignupData_collects (VString "bob@example.com")
              (VString "Abcdef1!") (VString "Bob")) as (_ & V & _).
  destruct (validateSignupData_collects (VString "bob")
              (VString "Abcdef1!") (VString "Bob")) as (_ & V' & _).
  split; [apply V; repeat split; reflexivity |].
  apply not_true_iff_false. intro H. apply V' in H as [H _]. discriminate H.
Defined.

Lemma validateBetData_accepts_witness :
  allValid (validateBetData (VString "g1") (VString "dog")
                            (VNumber (Fin 0)) (VNumber (Fin 150))) = true.
Proof.
  pose proof (validateBetData_accepts (VString "g1") (VString "dog")
                (VNumber (Fin 0)) (VNumber (Fin 150))) as (V & _).
  apply V.
  split; [exists "g1"%string; split; [reflexivity | discriminate] |].
  split; [now right |].
  split; [exists 0; split; [reflexivity | split; discriminate] |].
  exists 150. split; [reflexivity |].
  split; [split; discriminate | intro E; discriminate E].
Defined.

Lemma ProtectedRoute_gate_witness :
  ProtectedRoute (Some (mkUser "u1" "a@b.co" "Ann" (Fin 1000) true (Fin 0)))
                 false = Children /\
  ProtectedRoute (Some (mkUser "u2" "c@d.co" "Cy" (Fin 1000) false (Fin 0)))
                 false = NavigateToLogin.
Proof.
  split.
  - apply (proj1 (ProtectedRoute_gate _ _)).
    split; [reflexivity |]. eexists. split; reflexivity.
  - apply (proj2 (proj2 (ProtectedRoute_gate _ _))).
    split; [reflexivity |]. right. eexists. split; reflexivity.
Defined.

Lemma league_filter_partitions_witness :
  (List.length (filterGames mockGames nba)
   + List.length (filterGames mockGames ncaa)
   + List.length (filterGames mockGames nhl)
   + List.length (filterGames mockGames ufc)
   = List.length mockGames)%nat.
Proof. apply (league_filter_partitions mockGames). Defined.

(* ================================================================== *)
(** * The math utilities in double precision                           *)
(* ================================================================== *)

(* ------------------------------------------------------------------ *)
(** ** Double precision: signs, comparisons and exhaustive checks      *)
(* ------------------------------------------------------------------ *)

Section DoublePrecision.
Import Floats.
Import B64 B64N.
Local Open Scope float_scope.

Lemma all_from_spec (p : positive) :
  forall (f : Z -> bool) (base : Z),
    all_from p f base = true ->
    forall z : Z, (base <= z < base + Z.pos p)%Z -> f z = true.
Proof.
  induction p as [q IH | q IH |]; cbn [all_from]; intros f base H z Hz.
  - apply andb_prop in H. destruct H as [H H3].
    apply andb_prop in H. destruct H as [H1 H2].
    destruct (Z_lt_ge_dec z (base + Z.pos q)) as [L | G];
      [apply (IH f base H1); lia |].
    destruct (Z_lt_ge_dec z (base + Z.pos q~0)) as [L' | G'];
      [apply (IH f _ H2); lia |].
    replace z with (base + Z.pos q~0)%Z by lia. exact H3.
  - apply andb_prop in H. destruct H as [H1 H2].
    destruct (Z_lt_ge_dec z (base + Z.pos q)) as [L | G];
      [apply (IH f base H1); lia | apply (IH f _ H2); lia].
  - replace z with base by lia. exact H.
Qed.

Lemma forall_between_spec (lo hi : Z) (f : Z -> bool) :
  forall_between lo hi f = true ->
  forall z : Z, (lo <= z <= hi)%Z -> f z = true.
Proof.
  unfold forall_between. intros H z Hz.
  destruct (hi - lo + 1)%Z as [| p | p] eqn:E; try lia.
  apply (all_from_spec p f lo H). lia.
Qed.

Lemma forall_validQuote_spec (f : Z -> bool) :
  forall_validQuote f = true -> forall z : Z, validQuote z -> f z = true.
Proof.
  intros H z [Hz Hn].
  pose proof (forall_between_spec _ _ _ H z Hz) as Hf. cbv beta in Hf.
  apply orb_prop in Hf. destruct Hf as [Hf | Hf]; [| exact Hf].
  apply Z.eqb_eq in Hf. contradiction.
Qed.

(** *** Signs *)

Lemma Prim2SF_zero : Prim2SF 0 = S754_zero false.
Proof. reflexivity. Qed.

Lemma ltb_0_positive (x : float) :
  (0 <? x) = true -> positive_sf (Prim2SF x).
Proof.
  rewrite ltb_spec, Prim2SF_zero. unfold SFltb, SFcompare, positive_sf.
  destruct (Prim2SF x) as [s | s | | s m e]; try destruct s; simpl;
    congruence || trivial.
Qed.


Lemma positive_not_leb_0 (x : float) :
  positive_sf (Prim2SF x) -> (x <=? 0) = false.
Proof.
  rewrite leb_spec, Prim2SF_zero. unfold SFleb, SFcompare, positive_sf.
  destruct (Prim2SF x) as [s | s | | s m e]; try destruct s; simpl;
    tauto || trivial.
Qed.





(** *** The sign of a rounded quotient *)




















(** *** Finite non-zero quotes *)












(** *** Implied probability *)





(** *** Sign of the expected value *)





(** *** Kelly fraction and stake *)


Lemma kelly_zero_in_doubles (ev o : float) :
  (ev <=? 0) = true -> calculateKellyCriterion ev o = 0.
Proof. intro H. unfold calculateKellyCriterion. now rewrite H. Qed.





(** *** Hedge equalization *)






(** *** Shape and rounding of the scenario list *)








(** *** Conversions of integer quotes *)

Lemma reciprocal_checked :
  forall_between (-100000) 100000
    (fun z => (z =? 0)%Z || reciprocal_up_to_rounding z) = true.
Proof. vm_compute. reflexivity. Qed.

(** X1.  In double arithmetic, for every integer quote [o] with
    [1 <= |o| <= 100000], the decimal odds exceed 1 and the implied
    probability times the decimal odds is 1 up to one rounding error (the
    product is within [2^-52] of 1; it is not always 1: at -140 it is
    [1 + 2^-52]). *)
Theorem implied_probability_reciprocal_in_doubles :
  (forall z : Z, (1 <= Z.abs z <= 100000)%Z ->
     (1 <? americanToDecimal (of_integer z)) = true /\
     close 0x1p-52
       (americanToImpliedProbability (of_integer z)
        * americanToDecimal (of_integer z)) 1 = true) /\
  americanToImpliedProbability (-140) * americanToDecimal (-140)
  = 1 + 0x1p-52.
Proof.
  split; [| reflexivity].
  intros z Hz.
  pose proof (forall_between_spec _ _ _ reciprocal_checked z ltac:(lia)) as H.
  cbv beta in H. apply orb_prop in H. destruct H as [H | H].
  - apply Z.eqb_eq in H. lia.
  - unfold reciprocal_up_to_rounding in H. cbv zeta in H.
    apply andb_prop in H. exact H.
Qed.

Lemma implied_probability_reciprocal_in_doubles_witness :
  (1 <? americanToDecimal (of_integer 150)) = true /\
  close 0x1p-52
    (americanToImpliedProbability (of_integer 150)
     * americanToDecimal (of_integer 150)) 1 = true.
Proof.
  apply (proj1 implied_probability_reciprocal_in_doubles 150%Z).
  vm_compute. split; discriminate.
Defined.

Lemma american_quote_range_checked :
  forall_between 101 10100 american_quote_range = true.
Proof. vm_compute. reflexivity. Qed.

(** X2.  In double arithmetic, for the decimal odds with two decimals from
    1.01 to 101.00 ([d = k/100], [101 <= k <= 10100]), [decimalToAmerican]
    returns a quote of at least +100 when [d >= 2] and of at most -100 when
    [d < 2]: never a quote strictly between -100 and 100.  At decimal odds
    exactly 1 it returns [-Infinity]. *)
Theorem decimalToAmerican_range_in_doubles :
  (forall k : Z, (101 <= k <= 10100)%Z ->
     let d := of_integer k / 100 in
     ((2 <=? d) = true -> (100 <=? decimalToAmerican d) = true) /\
     ((2 <=? d) = false -> (decimalToAmerican d <=? -100) = true)) /\
  decimalToAmerican 1 = neg_infinity.
Proof.
  split; [| reflexivity].
  intros k Hk d.
  pose proof (forall_between_spec _ _ _ american_quote_range_checked k Hk)
    as H.
  unfold american_quote_range in H. cbv zeta in H. fold d in H.
  destruct (2 <=? d); split; intro E; try discriminate E; exact H.
Qed.

Lemma decimalToAmerican_range_in_doubles_witness :
  (100 <=? decimalToAmerican (of_integer 250 / 100)) = true /\
  (decimalToAmerican (of_integer 191 / 100) <=? -100) = true.
Proof.
  destruct decimalToAmerican_range_in_doubles as (H & _).
  split.
  - apply (proj1 (H 250%Z ltac:(lia))). reflexivity.
  - apply (proj2 (H 191%Z ltac:(lia))). reflexivity.
Defined.

Lemma round_trip_checked :
  forall_between 100 10000 round_trip_exact
  && forall_between (-10000) (-100) round_trip_exact = true.
Proof. vm_compute. reflexivity. Qed.

(** X3.  In double arithmetic, for every integer quote [o] with
    [100 <= |o| <= 10000]: the decimal odds [d = americanToDecimal(o)] come
    back unchanged from the quote they convert to,
    [americanToDecimal(decimalToAmerican(d)) === d], and the quote itself
    comes back, [decimalToAmerican(d) === o], unless [o = -100], which
    comes back as +100. *)
Theorem round_trip_in_doubles :
  (forall z : Z, (100 <= Z.abs z <= 10000)%Z ->
     let o := of_integer z in
     let d := americanToDecimal o in
     (americanToDecimal (decimalToAmerican d) =? d) = true /\
     (z <> (-100)%Z -> (decimalToAmerican d =? o) = true)) /\
  decimalToAmerican (americanToDecimal (-100)) = 100.
Proof.
  split; [| reflexivity].
  intros z Hz o d.
  pose proof round_trip_checked as H.
  apply andb_prop in H. destruct H as [Hp Hn].
  assert (H : round_trip_exact z = true).
  { destruct (Z_lt_ge_dec z 0) as [L | G].
    - apply (forall_between_spec _ _ _ Hn). lia.
    - apply (forall_between_spec _ _ _ Hp). lia. }
  unfold round_trip_exact in H. cbv zeta in H. fold o d in H.
  apply andb_prop in H. destruct H as [H1 H2].
  split; [exact H1 |].
  intro Hz'. apply orb_prop in H2. destruct H2 as [H2 | H2]; [| exact H2].
  apply Z.eqb_eq in H2. contradiction.
Qed.

Lemma round_trip_in_doubles_witness :
  (americanToDecimal
     (decimalToAmerican (americanToDecimal (of_integer (-110))))
   =? americanToDecimal (of_integer (-110))) = true /\
  (decimalToAmerican (americanToDecimal (of_integer (-110)))
   =? of_integer (-110)) = true.
Proof.
  destruct (proj1 round_trip_in_doubles (-110)%Z) as (H1 & H2).
  - vm_compute. split; discriminate.
  - split; [exact H1 | apply H2; discriminate].
Defined.

(** *** The Kelly fraction of an expected value *)

Lemma kelly_of_ev_checked :
  forall_validQuote (fun z => forall_between 1 99 (kelly_of_ev_bounded z))
  = true.
Proof. vm_compute. reflexivity. Qed.

(** X6.  In double arithmetic, for every integer quote [o] that
    [validateOdds] accepts and every whole-percent probability [p = k/100],
    [0 < k < 100], the Kelly fraction of the expected value,
    [calculateKellyCriterion(calculateEVPercentage(p, o), o)], is between 0
    and [p]; it is 0 when [p] is below the implied probability of [o],
    positive when [p] exceeds it, and at most [2^-50] when [p] is the
    implied probability. *)
Theorem kelly_fraction_of_ev_in_doubles :
  forall z k : Z,
    validQuote z -> (1 <= k <= 99)%Z ->
    let p := of_integer k / 100 in
    let q := americanToImpliedProbability (of_integer z) in
    let f :=
      calculateKellyCriterion (calculateEVPercentage p (of_integer z))
                              (of_integer z) in
    (0 <=? f) = true /\ (f <=? p) = true /\
    ((p <? q) = true -> (f =? 0) = true) /\
    ((q <? p) = true -> (0 <? f) = true) /\
    ((p =? q) = true -> (f <=? 0x1p-50) = true).
Proof.
  intros z k Hz Hk p q f.
  pose proof (forall_validQuote_spec _ kelly_of_ev_checked z Hz) as H.
  cbv beta in H.
  pose proof (forall_between_spec _ _ _ H k Hk) as H'.
  unfold kelly_of_ev_bounded in H'. cbv zeta in H'. fold p q f in H'.
  repeat (apply andb_prop in H'; destruct H' as [H' ?]).
  split; [assumption |]. split; [assumption |].
  split; [| split]; intro E; rewrite E in *; assumption.
Qed.

Lemma kelly_fraction_of_ev_in_doubles_witness :
  let p := of_integer 55 / 100 in
  let f :=
    calculateKellyCriterion (calculateEVPercentage p (of_integer (-110)))
                            (of_integer (-110)) in
  (0 <=? f) = true /\ (f <=? p) = true /\ (0 <? f) = true.
Proof.
  cbv zeta.
  destruct (kelly_fraction_of_ev_in_doubles (-110)%Z 55%Z)
    as (H0 & H1 & _ & Hpos & _).
  - split; [lia | discriminate].
  - lia.
  - split; [exact H0 |]. split; [exact H1 |]. apply Hpos. reflexivity.
Defined.

(** *** Arbitrage and the hedge profit *)

Lemma arbitrage_agrees_with_profit_checked :
  forallb
    (fun stake =>
       forall_validQuote
         (fun a =>
            forallb (arbitrage_agrees_with_profit stake a) defaultTestOdds))
    stakes = true.
Proof. vm_compute. reflexivity. Qed.

(** X8.  In double arithmetic, for every integer locked quote that
    [validateOdds] accepts, each of the ten default candidates and each
    stake 1, 10, ..., 1000000: when [detectArbitrage] reports an arbitrage
    between the locked quote and the candidate, the profit of the hedge is
    positive, and when the profit exceeds [stake * 10^-9],
    [detectArbitrage] reports an arbitrage.  Without the margin the second
    part fails: -120 hedged at +120 is no arbitrage, and the profit computed
    for a stake of 100 is [2^-46], a positive number. *)
Theorem arbitrage_and_hedge_profit_in_doubles :
  (forall (a : Z) (stake oB : float),
     validQuote a -> In stake stakes -> In oB defaultTestOdds ->
     let dA := americanToDecimal (of_integer a) in
     let h := hedgeBet stake dA (americanToDecimal oB) in
     let p := profitIfAWins stake dA h in
     let arb := hasArbitrage (detectArbitrage (of_integer a) oB) in
     (arb = true -> (0 <? p) = true) /\
     ((stake * 1e-9 <? p) = true -> arb = true)) /\
  (let dA := americanToDecimal (-120) in
   let h := hedgeBet 100 dA (americanToDecimal 120) in
   hasArbitrage (detectArbitrage (-120) 120) = false /\
   profitIfAWins 100 dA h = 0x1p-46).
Proof.
  split; [| cbv zeta; split; reflexivity].
  intros a stake oB Ha Hs Ho dA h p arb.
  pose proof (proj1 (forallb_forall _ _) arbitrage_agrees_with_profit_checked
                stake Hs) as H. cbv beta in H.
  pose proof (forall_validQuote_spec _ H a Ha) as H'. cbv beta in H'.
  pose proof (proj1 (forallb_forall _ _) H' oB Ho) as H''.
  unfold arbitrage_agrees_with_profit in H''. cbv zeta in H''.
  fold dA h p arb in H''.
  apply andb_prop in H''. destruct H'' as [H1 H2].
  split; intro E; rewrite E in *; assumption.
Qed.

Lemma arbitrage_and_hedge_profit_in_doubles_witness :
  let dA := americanToDecimal (of_integer (-110)) in
  let h := hedgeBet 100 dA (americanToDecimal 120) in
  (0 <? profitIfAWins 100 dA h) = true.
Proof.
  cbv zeta.
  apply (proj1 (proj1 arbitrage_and_hedge_profit_in_doubles (-110)%Z 100 120
                  ltac:(split; [lia | discriminate])
                  ltac:(do 2 right; left; reflexivity)
                  ltac:(do 6 right; left; reflexivity))).
  reflexivity.
Defined.

(** *** Zero odds *)

Lemma div_positive_by_zero (x : float) : (0 <? x) = true -> x / 0 = infinity.
Proof.
  intro H. apply Prim2SF_inj. rewrite div_spec, Prim2SF_zero.
  change (Prim2SF infinity) with (S754_infinity false).
  apply ltb_0_positive in H. unfold positive_sf in H.
  destruct (Prim2SF x) as [s | s | | s m e]; try destruct s; simpl in *;
    tauto || reflexivity.
Qed.

(** X23.  In double arithmetic the quote 0 is converted without any
    failure: [americanToDecimal(0)] is 1 (for [-0] as well) and
    [americanToImpliedProbability(0)] is 1; [calculateKellyCriterion(ev, 0)]
    is 0 for every [ev <= 0] and [+Infinity] for every [ev > 0]. *)
Theorem zero_odds_in_doubles :
  americanToDecimal 0 = 1 /\
  americanToDecimal (-0) = 1 /\
  americanToImpliedProbability 0 = 1 /\
  (forall ev : float,
     (ev <=? 0) = true -> calculateKellyCriterion ev 0 = 0) /\
  (forall ev : float,
     (0 <? ev) = true -> calculateKellyCriterion ev 0 = infinity).
Proof.
  split; [reflexivity |]. split; [reflexivity |]. split; [reflexivity |].
  split; [intros ev H; now apply kelly_zero_in_doubles |].
  intros ev H. unfold calculateKellyCriterion.
  rewrite (positive_not_leb_0 ev (ltb_0_positive ev H)). cbv zeta.
  change (americanToDecimal 0 - 1) with 0.
  rewrite (div_positive_by_zero ev H). reflexivity.
Qed.

Lemma zero_odds_in_doubles_witness :
  calculateKellyCriterion (-0.02) 0 = 0 /\
  calculateKellyCriterion 0.05 0 = infinity.
Proof.
  destruct zero_odds_in_doubles as (_ & _ & _ & Hzero & Hinf).
  split; [apply Hzero | apply Hinf]; reflexivity.
Defined.

End DoublePrecision.
